(** * Verification of the [db] module (fanlens-common)

    A shallow embedding of [db/__init__.py]: record introspection
    ([get_model_dict]), the insert compiler hook ([append_string]), the two
    upsert primitives ([insert_or_update], [insert_or_ignore]), the
    connection manager ([DB.init_db]), the scoped session context ([DB.ctx])
    and the streaming mapper ([DBMapper.map]).

    Python dictionaries are [gmap string pyval], Python sets of column names
    are [gset string], text is [string].  Session effects are threaded
    explicitly: every operation on a session appends to the session's trace,
    so that the order of log / rollback / close / commit can be stated. *)

From Stdlib Require Import ZArith Ascii.
From stdpp Require Import gmap strings list fin_maps.

Local Open Scope Z_scope.

(** ** Python values *)

(** Objects handled by a session are referred to by identity. *)
Definition obj := nat.

Inductive pyval :=
| PyNone
| PyBool (b : bool)
| PyInt (z : Z)
| PyStr (s : string)
| PyObj (o : obj).

Global Instance pyval_eq_dec : EqDecision pyval.
Proof. solve_decision. Defined.

(** [v is not None] *)
Definition is_not_None (v : pyval) : bool :=
  match v with
  | PyNone => false
  | _ => true
  end.

(** ** The [str] methods the module calls *)

Module PyStr.

(** Scan [s] left to right, [i] being the index of its first character,
    and keep the highest index at which [sub] starts. *)
Fixpoint find_last (sub s : string) (i acc : Z) : Z :=
  let acc' := if String.prefix sub s then i else acc in
  match s with
  | EmptyString => acc'
  | String _ s' => find_last sub s' (i + 1) acc'
  end.

(** [s.rfind(sub)]: highest index of an occurrence, [-1] when there is none. *)
Definition rfind (s sub : string) : Z := find_last sub s 0 (-1).

(** Replacement of the non-overlapping occurrences of a non-empty [old],
    leftmost first.  [skip] counts the characters of an occurrence just
    replaced that are still to be dropped. *)
Fixpoint replace_from (old new : string) (skip : nat) (s : string) : string :=
  match s with
  | EmptyString => EmptyString
  | String c s' =>
      match skip with
      | S k => replace_from old new k s'
      | O =>
          if String.prefix old s
          then new +:+ replace_from old new (Nat.pred (String.length old)) s'
          else String c (replace_from old new O s')
      end
  end.

(** [s.replace("", new)] puts [new] before every character and at the end. *)
Fixpoint interleave (new s : string) : string :=
  match s with
  | EmptyString => new
  | String c s' => new +:+ String c (interleave new s')
  end.

(** [s.replace(old, new)] *)
Definition replace (s old new : string) : string :=
  match old with
  | EmptyString => interleave new s
  | String _ _ => replace_from old new O s
  end.

(** [sep.join(l)] *)
Fixpoint join (sep : string) (l : list string) : string :=
  match l with
  | [] => EmptyString
  | [x] => x
  | x :: rest => x +:+ sep +:+ join sep rest
  end.

(** [s[n:]] *)
Fixpoint drop (n : nat) (s : string) : string :=
  match n, s with
  | S k, String _ s' => drop k s'
  | _, _ => s
  end.

(** [sub in s] *)
Fixpoint contains (sub s : string) : bool :=
  String.prefix sub s ||
  match s with
  | EmptyString => false
  | String _ s' => contains sub s'
  end.

End PyStr.

(** ** Module constants *)

Definition ON_CONFLICT_DO_NOTHING : string := "ON CONFLICT DO NOTHING".

(** ['ON CONFLICT (%(column)s) DO UPDATE SET %(updates)s' % dict(column=.., updates=..)] *)
Definition ON_CONFLICT_DO_UPDATE (column updates : string) : string :=
  "ON CONFLICT (" +:+ column +:+ ") DO UPDATE SET " +:+ updates.

(** ** Records and record introspection *)

(** A model instance: its table, the declared columns of the table in
    declaration order, and attribute access.  An unset attribute reads as
    [None]. *)
Record Model := {
  tablename : string;
  columns : list string;
  getattr : string -> pyval
}.

(** The pairs produced by the generator expression of [get_model_dict]. *)
Definition model_items (model : Model) : list (string * pyval) :=
  omap (fun name => if is_not_None (getattr model name)
                    then Some (name, getattr model name) else None)
       (columns model).

(** [dict(pairs)]: pairs are stored in order, a later key overwrites. *)
Definition dict (items : list (string * pyval)) : gmap string pyval :=
  foldl (fun d kv => <[kv.1 := kv.2]> d) ∅ items.

Definition get_model_dict (model : Model) : gmap string pyval :=
  dict (model_items model).

(** ** The insert construct and its compiler hook *)

(** [table.insert(postgresql_append_string=...)]; the dialect argument
    defaults to [None]. *)
Record Insert := {
  table : string;
  postgresql_append_string : option string
}.

(** Truth value of [insert.kwargs['postgresql_append_string']]. *)
Definition truthy (kw : option string) : option string :=
  match kw with
  | Some (String c rest) => Some (String c rest)
  | _ => None
  end.

(** The hook registered with [@compiles(Insert)].  [visit_insert] is the
    stock compiler of the SQL toolkit. *)
Definition append_string (visit_insert : Insert -> string) (insert : Insert) : string :=
  let s := visit_insert insert in
  match truthy (postgresql_append_string insert) with
  | Some clause =>
      if PyStr.rfind s "RETURNING" =? -1
      then s +:+ " " +:+ clause
      else PyStr.replace s "RETURNING" (" " +:+ clause +:+ " RETURNING ")
  | None => s
  end.

(** ** Sessions *)

(** What a [raise] carries.  [Error] stands for instances of [Exception],
    [Interrupt] for the other [BaseException]s ([KeyboardInterrupt],
    [SystemExit], [GeneratorExit]), which [except Exception] lets through. *)
Inductive raised :=
| Error (name : string)
| Interrupt (name : string).

Inductive outcome (A : Type) :=
| Returns (a : A)
| Raises (r : raised).
Arguments Returns {A} a.
Arguments Raises {A} r.

(** The value [session.execute] hands back. *)
Record ResultProxy := {
  rowcount : Z;
  inserted_primary_key : list pyval
}.

(** Effects in program order: calls on the session, calls on [logging], and
    the values a generator hands to its consumer. *)
Inductive event :=
| Execute (stmt : Insert) (params : gmap string pyval)
| Flush
| Expunge (o : obj)
| Commit
| Rollback
| Close
| LogException (msg : string) (err : string)
| LogError (msg : string) (err : string)
| Yield (v : pyval).

(** A session: the calls made so far, the working set of objects whose
    staged changes the next flush sends to the store, and the objects whose
    changes were sent. *)
Record Session := {
  trace : list event;
  pending : list obj;
  flushed : list obj
}.

Definition emit (e : event) (s : Session) : Session :=
  {| trace := trace s ++ [e]; pending := pending s; flushed := flushed s |}.

(** Computations over a session that may raise. *)
Definition M (A : Type) : Type := Session -> outcome A * Session.

Definition ret {A} (a : A) : M A := fun s => (Returns a, s).

Definition raise {A} (r : raised) : M A := fun s => (Raises r, s).

Definition bind {A B} (m : M A) (k : A -> M B) : M B :=
  fun s =>
    match m s with
    | (Returns a, s') => k a s'
    | (Raises r, s') => (Raises r, s')
    end.

Declare Scope py_scope.
Delimit Scope py_scope with py.
Notation "x <- m ;; k" := (bind m (fun x => k))
  (at level 100, m at next level, right associativity) : py_scope.
Notation "m ;;; k" := (bind m (fun _ => k))
  (at level 100, right associativity) : py_scope.
Local Open Scope py_scope.

Definition tell (e : event) : M unit := fun s => (Returns tt, emit e s).

(** The query delivers a row: the object joins the working set. *)
Definition attach (o : obj) : M unit :=
  fun s => (Returns tt,
            {| trace := trace s; pending := pending s ++ [o]; flushed := flushed s |}).

(** [session.expunge(entry)] *)
Definition expunge (o : obj) : M unit :=
  fun s => (Returns tt,
            {| trace := trace s ++ [Expunge o];
               pending := List.filter (fun p => negb (Nat.eqb p o)) (pending s);
               flushed := flushed s |}).

(** [session.commit()]: the working set is flushed, then the transaction
    is committed. *)
Definition commit : M unit :=
  fun s => (Returns tt,
            {| trace := trace s ++ [Commit];
               pending := [];
               flushed := flushed s ++ pending s |}).

(** [session.rollback()]: staged changes are dropped. *)
Definition rollback : M unit :=
  fun s => (Returns tt,
            {| trace := trace s ++ [Rollback]; pending := []; flushed := flushed s |}).

(** [session.close()] *)
Definition close : M unit :=
  fun s => (Returns tt,
            {| trace := trace s ++ [Close]; pending := []; flushed := flushed s |}).

(** [session.flush()] *)
Definition flush : M unit :=
  fun s => (Returns tt,
            {| trace := trace s ++ [Flush];
               pending := [];
               flushed := flushed s ++ pending s |}).

(** ** Upsert engine *)

Section Upsert.

(** What the store answers to a statement: a result, or an execution error. *)
Variable store : Insert -> gmap string pyval -> outcome ResultProxy.

(** [session.execute(stmt, params)] *)
Definition execute (stmt : Insert) (params : gmap string pyval) : M ResultProxy :=
  tell (Execute stmt params) ;;; fun s => (store stmt params, s).

(** ['{0} = %({0})s'.format(key)] *)
Definition assignment (key : string) : string :=
  key +:+ " = %(" +:+ key +:+ ")s".

(** [update_fields] after the [if update_fields is None] default:
    the fields given, or all keys of the mapping. *)
Definition chosen_fields (model_dict : gmap string pyval)
    (update_fields : option (gset string)) : gset string :=
  match update_fields with
  | None => dom model_dict
  | Some fields => fields
  end.

(** [set(update_fields).difference(set(exclude_fields))]: the set the update
    clause ranges over. *)
Definition effective_update_fields (model_dict : gmap string pyval)
    (update_fields : option (gset string)) (exclude_fields : gset string) : gset string :=
  chosen_fields model_dict update_fields ∖ exclude_fields.

Definition update_string (fields : gset string) : string :=
  PyStr.join ", " (assignment <$> elements fields).

(** The statement [insert_or_update] hands to [session.execute]. *)
Definition update_statement (entry : Model) (column : string)
    (update_fields : option (gset string)) (exclude_fields : gset string) : Insert :=
  let model_dict := get_model_dict entry in
  let update_fields := effective_update_fields model_dict update_fields exclude_fields in
  {| table := tablename entry;
     postgresql_append_string :=
       Some (ON_CONFLICT_DO_UPDATE column (update_string update_fields)) |}.

Definition insert_or_update (entry : Model) (column : string)
    (update_fields : option (gset string)) (exclude_fields : gset string)
    (do_flush : bool) : M unit :=
  let model_dict := get_model_dict entry in
  _ <- execute (update_statement entry column update_fields exclude_fields) model_dict ;;
  if do_flush then flush else ret tt.

Definition insert_or_ignore (entry : Model) (do_flush : bool) : M ResultProxy :=
  result <- execute {| table := tablename entry;
                       postgresql_append_string := Some ON_CONFLICT_DO_NOTHING |}
                    (get_model_dict entry) ;;
  (if do_flush then flush else ret tt) ;;;
  ret result.

End Upsert.

(** The events an upsert call adds after the statement itself: the flush,
    when it was asked for and the statement went through. *)
Definition after_execute {A} (answer : outcome A) (do_flush : bool) : list event :=
  match answer with
  | Returns _ => if do_flush then [Flush] else []
  | Raises _ => []
  end.

(** ** Connection manager and scoped session context *)

Module DB.

(** The connection parameters [Environment("DB")] supplies. *)
Record Environment := {
  username : string;
  password : string;
  database : string;
  host : option string;
  port : option string
}.

Record Engine := {
  url : string;
  client_encoding : string;
  serial : nat
}.

Record sessionmaker := {
  bound_to : Engine;
  autocommit : bool;
  autoflush : bool
}.

(** The three attributes of [DB._db], once they are assigned. *)
Record attributes := {
  engine : option Engine;
  Session : option sessionmaker;
  AutoSession : option sessionmaker
}.

(** [DB._db] as one thread sees it.  [_db] is a [threading.local]: the
    class body assigns its three attributes in the thread that runs it, and
    in every other thread the object starts without any attribute, which
    is [None] here. *)
Definition state := option attributes.

(** After the class body, in the thread that ran it: the three attributes
    are there and hold [None]. *)
Definition initial : state :=
  Some {| engine := None; Session := None; AutoSession := None |}.

(** In a thread that did not run the class body and assigned nothing yet. *)
Definition unassigned : state := None.

(** [engine(username, password, database, host='localhost', port=5432)];
    [created] counts the engines built so far and tells them apart. *)
Definition make_engine (env : Environment) (created : nat) : Engine :=
  {| url := "postgresql://" +:+ username env +:+ ":" +:+ password env +:+ "@"
            +:+ default "localhost" (host env) +:+ ":"
            +:+ default "5432" (port env) +:+ "/" +:+ database env;
     client_encoding := "utf8";
     serial := created |}.

Definition default_engine (env : Environment) (created : nat) : Engine :=
  make_engine env created.

(** [cls._db.engine]: an [AttributeError] where the attribute was never
    assigned. *)
Definition get_engine (db : state) : outcome (option Engine) :=
  match db with
  | None => Raises (Error "AttributeError")
  | Some attrs => Returns (engine attrs)
  end.

(** The three assignments in the body of [init_db]. *)
Definition assign_all (env : Environment) (created : nat) : state * nat :=
  let e := default_engine env created in
  (Some {| engine := Some e;
           Session := Some {| bound_to := e; autocommit := false; autoflush := true |};
           AutoSession := Some {| bound_to := e; autocommit := true; autoflush := true |} |},
   S created).

(** [init_db(force)] on the pair of [_db], as the calling thread sees it,
    and the engine count.  In [force or cls._db.engine is None] the
    attribute is read only when [force] is false. *)
Definition init_db (env : Environment) (force : bool) (st : state * nat)
    : outcome unit * (state * nat) :=
  if force then (Returns tt, assign_all env (snd st))
  else
    match get_engine (fst st) with
    | Raises r => (Raises r, st)
    | Returns None => (Returns tt, assign_all env (snd st))
    | Returns (Some _) => (Returns tt, st)
    end.

(** [DB()]: the constructor only runs the guarded initialisation. *)
Definition __init__ (env : Environment) (st : state * nat)
    : outcome unit * (state * nat) :=
  init_db env false st.

(** [with self.ctx() as session: body], run on the session [self.session]
    returned.  The generator behind the context manager catches [Exception]
    without raising again, so the [with] statement ends normally after the
    handler ran; [body] then has no value, which is [None] here. *)
Definition ctx {A} (body : M A) : M (option A) :=
  fun session =>
    match body session with
    | (Returns a, s) =>
        (close ;;; ret (Some a)) s
    | (Raises (Error err), s) =>
        (tell (LogException "caught exception in db context, rolling back transaction" err) ;;;
         rollback ;;; close ;;; ret None) s
    | (Raises (Interrupt err), s) =>
        (close ;;; raise (Interrupt err)) s
    end.

End DB.

(** ** Streaming mapper *)

Module DBMapper.

(** What iterating the query produces next: a row, or an error of the
    cursor (a lost connection, say). *)
Inductive fetch :=
| Row (entry : obj)
| Broken (r : raised).

(** [_error_handler(fun, session)]: the wrapped transform.  The handler
    has no [return], so a caught error makes the call return [None]. *)
Definition _error_handler (f : obj -> outcome pyval) (entry : obj) : M pyval :=
  match f entry with
  | Returns v => ret v
  | Raises (Error err) =>
      tell (LogError "caught error during mapping, skipping" err) ;;;
      expunge entry ;;;
      ret PyNone
  | Raises (Interrupt err) => raise (Interrupt err)
  end.

(** The [for] loop over the generator expression. *)
Fixpoint loop (f : obj -> outcome pyval) (tee : bool) (query : list fetch) : M unit :=
  match query with
  | [] => ret tt
  | Row entry :: rest =>
      attach entry ;;;
      mapped_entry <- _error_handler f entry ;;
      (if tee then tell (Yield mapped_entry) else ret tt) ;;;
      loop f tee rest
  | Broken r :: _ => raise r
  end.

(** [map(fun, tee)], driven to its end by the consumer; what it yields is
    recorded in the trace, in order with the calls on the session. *)
Definition map (f : obj -> outcome pyval) (tee : bool) (query : list fetch)
    : M (option unit) :=
  DB.ctx (loop f tee query ;;; commit).

(** [each(fun)] *)
Definition each (f : obj -> outcome pyval) (query : list fetch) : M unit :=
  DBMapper.map f false query ;;; ret tt.

(** The values the consumer of a generator received. *)
Definition yielded (t : list event) : list pyval :=
  omap (fun e => match e with Yield v => Some v | _ => None end) t.

Definition is_commit (e : event) : bool :=
  match e with Commit => true | _ => false end.

(** The transform returns on this row. *)
Definition succeeds (f : obj -> outcome pyval) (entry : obj) : bool :=
  match f entry with Returns _ => true | Raises _ => false end.

(** What the wrapped transform returns for a row it does not abort on. *)
Definition value_of (f : obj -> outcome pyval) (entry : obj) : pyval :=
  match f entry with Returns v => v | Raises _ => PyNone end.

Definition commits (t : list event) : nat :=
  length (List.filter is_commit t).

End DBMapper.

(** A session nothing has happened on yet. *)
Definition new_session : Session :=
  {| trace := []; pending := []; flushed := [] |}.

(** ** Mapper attributes *)

(** A filter criterion, by the text of its expression. *)
Inductive criterion :=
| Expr (text : string).

Module MapperObject.

(** The attributes [DBMapper.__init__] sets, [_db] apart; [_filter] holds a
    tuple, kept as the list of its items. *)
Record t := {
  _entry_class : string;
  _filter : list criterion;
  _dry_run : bool
}.

(** [DBMapper(entry_class)]: the three plain attributes, then [DB()] on the
    connection state of the calling thread; when [DB()] raises, no mapper
    comes back. *)
Definition __init__ (env : DB.Environment) (entry_class : string)
    (st : DB.state * nat) : outcome t * (DB.state * nat) :=
  match DB.__init__ env st with
  | (Returns _, st') =>
      (Returns {| _entry_class := entry_class; _filter := []; _dry_run := false |}, st')
  | (Raises r, st') => (Raises r, st')
  end.

End MapperObject.

(** ** Runs of the connection manager *)

(** A sequence of [init_db] calls in one thread, given by their [force]
    flags; it ends at the first call that raises. *)
Fixpoint run_init_db (env : DB.Environment) (flags : list bool)
    (st : DB.state * nat) : outcome unit * (DB.state * nat) :=
  match flags with
  | [] => (Returns tt, st)
  | force :: rest =>
      match DB.init_db env force st with
      | (Returns _, st') => run_init_db env rest st'
      | (Raises r, st') => (Raises r, st')
      end
  end.

(** The three attributes agree: all [None], or an engine with the two
    factories bound to it, the first transactional, the second autocommit. *)
Definition db_consistent (db : DB.attributes) : Prop :=
  Some db = DB.initial
  \/ exists e,
      db = {| DB.engine := Some e;
              DB.Session :=
                Some {| DB.bound_to := e; DB.autocommit := false; DB.autoflush := true |};
              DB.AutoSession :=
                Some {| DB.bound_to := e; DB.autocommit := true; DB.autoflush := true |} |}.

(** ** Reading traces of a pass *)

(** The transform returns on this row, or raises what the row handler
    catches. *)
Definition handled (f : obj -> outcome pyval) (entry : obj) : bool :=
  match f entry with
  | Raises (Interrupt _) => false
  | _ => true
  end.

Definition is_yield (e : event) : bool :=
  match e with Yield _ => true | _ => false end.

(** The calls of a trace, without what was handed to the consumer. *)
Definition calls (t : list event) : list event :=
  List.filter (fun e => negb (is_yield e)) t.

Definition is_rollback (e : event) : bool :=
  match e with Rollback => true | _ => false end.

(** Two sessions that went through the same calls and hold the same
    objects. *)
Definition same_calls (s1 s2 : Session) : Prop :=
  calls (trace s1) = calls (trace s2)
  /\ pending s1 = pending s2
  /\ flushed s1 = flushed s2.

(** ** Sample data *)

(** [Widget(id=1, name="a", qty=5)] over [widgets(id, name, qty)]. *)
Definition widget : Model :=
  {| tablename := "widgets";
     columns := ["id"; "name"; "qty"];
     getattr := fun name =>
       if String.eqb name "id" then PyInt 1
       else if String.eqb name "name" then PyStr "a"
       else if String.eqb name "qty" then PyInt 5
       else PyNone |}.

(** [Widget(id=1, qty=9)]: [name] is left unset. *)
Definition widget_without_name : Model :=
  {| tablename := "widgets";
     columns := ["id"; "name"; "qty"];
     getattr := fun name =>
       if String.eqb name "id" then PyInt 1
       else if String.eqb name "qty" then PyInt 9
       else PyNone |}.

(** A store that accepts every statement and reports one affected row. *)
Definition accepting_store (stmt : Insert) (params : gmap string pyval)
    : outcome ResultProxy :=
  Returns {| rowcount := 1; inserted_primary_key := [] |}.

(** A transform that fails on row [1] and hands every other row back. *)
Definition fails_on_1 (entry : obj) : outcome pyval :=
  if Nat.eqb entry 1 then Raises (Error "ValueError") else Returns (PyObj entry).

(** A store that refuses every statement. *)
Definition rejecting_store (stmt : Insert) (params : gmap string pyval)
    : outcome ResultProxy :=
  Raises (Error "IntegrityError").

(** A transform interrupted on row [1]. *)
Definition interrupted_on_1 (entry : obj) : outcome pyval :=
  if Nat.eqb entry 1 then Raises (Interrupt "KeyboardInterrupt")
  else Returns (PyObj entry).



Definition local_env : DB.Environment :=
  {| DB.username := "fan"; DB.password := "secret"; DB.database := "lens";
     DB.host := None; DB.port := None |}.

(** * Properties *)

(** ** Text *)

Section Text.

Implicit Types s t old new sub pre post : string.

Lemma append_cons c s t : String c s +:+ t = String c (s +:+ t).
Proof. reflexivity. Qed.

Lemma append_nil_l s : "" +:+ s = s.
Proof. reflexivity. Qed.

Lemma append_nil_r s : s +:+ "" = s.
Proof.
  induction s as [|c s IH]; [reflexivity|].
  by rewrite append_cons, IH.
Qed.

Lemma append_assoc s t u : (s +:+ t) +:+ u = s +:+ t +:+ u.
Proof.
  induction s as [|c s IH]; [reflexivity|].
  by rewrite !append_cons, IH.
Qed.

Lemma length_append s t :
  String.length (s +:+ t) = (String.length s + String.length t)%nat.
Proof.
  induction s as [|c s IH]; [reflexivity|].
  rewrite append_cons. cbn [String.length]. by rewrite IH.
Qed.

(** Equal-length prefixes of equal texts are equal. *)
Lemma append_inj_length s1 s2 t1 t2 :
  String.length s1 = String.length s2 ->
  s1 +:+ t1 = s2 +:+ t2 -> s1 = s2 /\ t1 = t2.
Proof.
  revert s2; induction s1 as [|c s1 IH]; intros [|d s2] Hlen Heq;
    try discriminate; [done|].
  rewrite !append_cons in Heq.
  injection Heq as -> Heq. injection Hlen as Hlen.
  destruct (IH _ Hlen Heq) as [-> ->]. done.
Qed.

Lemma prefix_nil s : String.prefix "" s = true.
Proof. by destruct s. Qed.

Lemma prefix_refl_app old post : String.prefix old (old +:+ post) = true.
Proof.
  induction old as [|c old IH]; [apply prefix_nil|].
  rewrite append_cons. cbn [String.prefix].
  destruct (ascii_dec c c); [exact IH | congruence].
Qed.

(** A match that starts inside [b] and is not inside [b] runs over its end. *)
Lemma prefix_app_inv old b y :
  String.prefix old (b +:+ y) = true ->
  String.prefix old b = true \/
  ((String.length b < String.length old)%nat /\
   String.prefix (PyStr.drop (String.length b) old) y = true).
Proof.
  revert old; induction b as [|c b IH]; intros old H.
  - destruct old as [|a old]; [left; apply prefix_nil|].
    right. split; [cbn [String.length]; lia | exact H].
  - destruct old as [|a old]; [left; apply prefix_nil|].
    rewrite append_cons in H.
    cbn [String.prefix String.length PyStr.drop] in H |- *.
    destruct (ascii_dec a c); [|discriminate].
    destruct (IH _ H) as [Hp | [Hlt Hp]]; [by left|].
    right. split; [lia | exact Hp].
Qed.

Lemma contains_cons sub c s :
  PyStr.contains sub (String c s) = false ->
  String.prefix sub (String c s) = false /\ PyStr.contains sub s = false.
Proof.
  change (PyStr.contains sub (String c s))
    with (String.prefix sub (String c s) || PyStr.contains sub s).
  intros H. by apply orb_false_iff in H.
Qed.

(** *** [rfind] against [in] *)

Lemma find_last_absent sub s i acc :
  PyStr.contains sub s = false -> PyStr.find_last sub s i acc = acc.
Proof.
  revert i acc; induction s as [|c s IH]; intros i acc H.
  - cbn [PyStr.contains PyStr.find_last] in *.
    apply orb_false_iff in H as [-> _]. reflexivity.
  - apply contains_cons in H as [Hp Hc].
    cbn [PyStr.find_last]. rewrite Hp. by apply IH.
Qed.

Lemma find_last_range sub s i acc :
  PyStr.find_last sub s i acc = acc \/ i <= PyStr.find_last sub s i acc.
Proof.
  revert i acc; induction s as [|c s IH]; intros i acc.
  - cbn [PyStr.find_last]. destruct (String.prefix sub ""); [right; lia | by left].
  - cbn [PyStr.find_last].
    destruct (String.prefix sub (String c s)).
    + destruct (IH (i + 1) i) as [-> | Hle]; right; lia.
    + destruct (IH (i + 1) acc) as [-> | Hle]; [by left | right; lia].
Qed.

Lemma find_last_present sub s i acc :
  PyStr.contains sub s = true -> i <= PyStr.find_last sub s i acc.
Proof.
  revert i acc; induction s as [|c s IH]; intros i acc H.
  - cbn [PyStr.contains PyStr.find_last] in *.
    rewrite orb_false_r in H. rewrite H. lia.
  - change (PyStr.contains sub (String c s))
      with (String.prefix sub (String c s) || PyStr.contains sub s) in H.
    cbn [PyStr.find_last].
    destruct (PyStr.contains sub s) eqn:Hc.
    + specialize (IH (i + 1) (if String.prefix sub (String c s) then i else acc) eq_refl).
      lia.
    + rewrite orb_false_r in H. rewrite H.
      rewrite (find_last_absent _ _ _ _ Hc). lia.
Qed.

Lemma rfind_absent s sub :
  PyStr.contains sub s = false -> PyStr.rfind s sub = -1.
Proof. apply find_last_absent. Qed.

Lemma rfind_present s sub :
  PyStr.contains sub s = true -> 0 <= PyStr.rfind s sub.
Proof. apply find_last_present. Qed.

(** *** [replace] *)

Lemma replace_from_skip old new u rest :
  PyStr.replace_from old new (String.length u) (u +:+ rest)
  = PyStr.replace_from old new O rest.
Proof.
  induction u as [|c u IH]; [reflexivity|].
  rewrite append_cons. exact IH.
Qed.

Lemma replace_from_hit a old new post :
  PyStr.replace_from (String a old) new O (String a old +:+ post)
  = new +:+ PyStr.replace_from (String a old) new O post.
Proof.
  change (String a old +:+ post) with (String a (old +:+ post)).
  cbn [PyStr.replace_from].
  change (String a (old +:+ post)) with (String a old +:+ post).
  rewrite prefix_refl_app. cbn [String.length Nat.pred].
  by rewrite replace_from_skip.
Qed.

Lemma replace_from_absent old new s :
  PyStr.contains old s = false -> PyStr.replace_from old new O s = s.
Proof.
  induction s as [|c s IH]; intros H; [reflexivity|].
  apply contains_cons in H as [Hp Hc].
  cbn [PyStr.replace_from]. rewrite Hp. by rewrite IH.
Qed.

(** No proper suffix of the keyword starts the keyword again, so a match
    cannot begin before the keyword and end inside it. *)
Lemma RETURNING_unbordered k post :
  (0 < k < 9)%nat ->
  String.prefix (PyStr.drop k "RETURNING") ("RETURNING" +:+ post) = false.
Proof.
  intros [Hlo Hhi].
  do 9 (destruct k as [|k]; [first [lia | reflexivity]|]). lia.
Qed.

Lemma prefix_split old s :
  String.prefix old s = true -> exists rest, s = old +:+ rest.
Proof.
  revert s; induction old as [|a old IH]; intros s H; [by exists s|].
  destruct s as [|c s]; [discriminate|].
  cbn [String.prefix] in H. destruct (ascii_dec a c) as [->|]; [|discriminate].
  destruct (IH _ H) as [rest ->]. by exists rest.
Qed.

Lemma prefix_app_mono old s t :
  String.prefix old s = true -> String.prefix old (s +:+ t) = true.
Proof.
  intros H. destruct (prefix_split _ _ H) as [rest ->].
  rewrite append_assoc. apply prefix_refl_app.
Qed.

(** Replacement works on the two sides of an occurrence of the keyword
    separately, wherever the occurrence is. *)
Lemma replace_from_around_RETURNING new n pre post :
  (String.length pre <= n)%nat ->
  PyStr.replace_from "RETURNING" new O (pre +:+ "RETURNING" +:+ post)
  = PyStr.replace_from "RETURNING" new O pre
    +:+ new +:+ PyStr.replace_from "RETURNING" new O post.
Proof.
  revert pre; induction n as [|n IH]; intros pre Hlen.
  - destruct pre; [|cbn [String.length] in Hlen; lia].
    exact (replace_from_hit _ _ _ _).
  - destruct pre as [|c pre]; [exact (replace_from_hit _ _ _ _)|].
    cbn [String.length] in Hlen.
    destruct (String.prefix "RETURNING" (String c pre)) eqn:Hp.
    + destruct (prefix_split _ _ Hp) as [rest Hrest]. rewrite Hrest.
      assert (String.length rest <= n)%nat as Hn.
      { apply (f_equal String.length) in Hrest.
        rewrite length_append in Hrest. cbn [String.length] in Hrest. lia. }
      rewrite append_assoc, !replace_from_hit, (IH _ Hn).
      by rewrite append_assoc.
    + rewrite append_cons. cbn [PyStr.replace_from].
      rewrite <- append_cons, Hp.
      destruct (String.prefix "RETURNING" (String c pre +:+ "RETURNING" +:+ post))
        eqn:Hq.
      * apply prefix_app_inv in Hq as [Hq | [Hlt Hq]]; [congruence|].
        rewrite RETURNING_unbordered in Hq; [discriminate|].
        cbn [String.length] in Hlt |- *. lia.
      * rewrite (IH pre) by lia. reflexivity.
Qed.

Lemma contains_RETURNING_app pre post :
  PyStr.contains "RETURNING" (pre +:+ "RETURNING" +:+ post) = true.
Proof.
  induction pre as [|c pre IH].
  - change ("" +:+ "RETURNING" +:+ post) with ("RETURNING" +:+ post).
    destruct post; reflexivity.
  - change (String c pre +:+ "RETURNING" +:+ post)
      with (String c (pre +:+ "RETURNING" +:+ post)).
    change (PyStr.contains "RETURNING" (String c (pre +:+ "RETURNING" +:+ post)))
      with (String.prefix "RETURNING" (String c (pre +:+ "RETURNING" +:+ post))
            || PyStr.contains "RETURNING" (pre +:+ "RETURNING" +:+ post)).
    rewrite IH. apply orb_true_r.
Qed.

End Text.

(** ** The compiler hook *)

Lemma truthy_Some clause :
  clause <> "" -> truthy (Some clause) = Some clause.
Proof. by destruct clause. Qed.




(** ** Record introspection *)

Lemma is_not_None_true v : is_not_None v = true <-> v <> PyNone.
Proof. destruct v; simpl; split; intros; congruence. Qed.

(** Reading the dictionary built from the items of a model, on top of an
    earlier dictionary [acc]. *)
Lemma lookup_foldl_items (model : Model) (cols : list string)
    (acc : gmap string pyval) (c : string) :
  foldl (fun d kv => <[kv.1 := kv.2]> d) acc
        (omap (fun name => if is_not_None (getattr model name)
                           then Some (name, getattr model name) else None) cols) !! c
  = if decide (c ∈ cols /\ getattr model c <> PyNone)
    then Some (getattr model c) else acc !! c.
Proof.
  revert acc; induction cols as [|x cols IH]; intros acc.
  - cbn. case_decide as H; [|reflexivity]. destruct H as [H _]. by apply elem_of_nil in H.
  - cbn [omap list_omap]. destruct (is_not_None (getattr model x)) eqn:Hx.
    + cbn [foldl]. rewrite IH. cbn [fst snd].
      apply is_not_None_true in Hx.
      destruct (decide (c ∈ cols /\ getattr model c <> PyNone)) as [H1|H1];
        destruct (decide (c ∈ x :: cols /\ getattr model c <> PyNone)) as [H2|H2].
      * reflexivity.
      * exfalso. apply H2. destruct H1 as [Hin Hc]. split; [by right | exact Hc].
      * destruct H2 as [Hin Hc]. apply elem_of_cons in Hin as [->|Hin].
        -- by rewrite lookup_insert_eq.
        -- exfalso. by apply H1.
      * rewrite lookup_insert_ne; [reflexivity|].
        intros ->. apply H2. split; [by left | exact Hx].
    + rewrite IH.
      assert (getattr model x = PyNone) as Hnone by (by destruct (getattr model x)).
      destruct (decide (c ∈ cols /\ getattr model c <> PyNone)) as [H1|H1];
        destruct (decide (c ∈ x :: cols /\ getattr model c <> PyNone)) as [H2|H2].
      * reflexivity.
      * exfalso. apply H2. destruct H1 as [Hin Hc]. split; [by right | exact Hc].
      * exfalso. destruct H2 as [Hin Hc]. apply elem_of_cons in Hin as [->|Hin].
        -- congruence.
        -- by apply H1.
      * reflexivity.
Qed.

Lemma lookup_get_model_dict (model : Model) (c : string) :
  get_model_dict model !! c
  = if decide (c ∈ columns model /\ getattr model c <> PyNone)
    then Some (getattr model c) else None.
Proof.
  unfold get_model_dict, dict, model_items.
  rewrite lookup_foldl_items. by rewrite lookup_empty.
Qed.

Lemma elem_of_dom_get_model_dict (model : Model) (c : string) :
  c ∈ dom (get_model_dict model) <-> c ∈ columns model /\ getattr model c <> PyNone.
Proof.
  rewrite elem_of_dom, lookup_get_model_dict.
  case_decide as H; split; intros H'; try done.
Qed.

Lemma dom_get_model_dict (model : Model) :
  dom (get_model_dict model)
  = list_to_set (remove_dups (filter (fun c => getattr model c <> PyNone) (columns model))).
Proof.
  apply set_eq. intros c.
  rewrite elem_of_dom_get_model_dict, elem_of_list_to_set, elem_of_remove_dups,
    list_elem_of_filter.
  tauto.
Qed.

Lemma lookup_get_model_dict_Some (model : Model) (c : string) (v : pyval) :
  get_model_dict model !! c = Some v
  <-> c ∈ columns model /\ getattr model c = v /\ v <> PyNone.
Proof.
  rewrite lookup_get_model_dict.
  case_decide as H; split.
  - intros [= <-]. tauto.
  - intros (_ & -> & _). reflexivity.
  - discriminate.
  - intros (Hin & <- & Hv). tauto.
Qed.

(** C6.  The mapping of a record holds exactly the declared columns whose
    value is not [None], each with the value of the record; no entry holds
    [None], and the mapping has as many entries as the record has present
    columns. *)
Theorem get_model_dict_present_columns (model : Model) :
  (forall c v,
      get_model_dict model !! c = Some v
      <-> c ∈ columns model /\ getattr model c = v /\ v <> PyNone)
  /\ (forall c, get_model_dict model !! c <> Some PyNone)
  /\ size (get_model_dict model)
     = length (remove_dups (filter (fun c => getattr model c <> PyNone) (columns model))).
Proof.
  split; [|split].
  - apply lookup_get_model_dict_Some.
  - intros c. rewrite lookup_get_model_dict.
    case_decide as H; [|discriminate]. intros [= Hv]. tauto.
  - rewrite <- size_dom, dom_get_model_dict.
    apply size_list_to_set, NoDup_remove_dups.
Qed.

(** ** Upsert engine *)

Section UpsertProperties.

Variable store : Insert -> gmap string pyval -> outcome ResultProxy.

Lemma execute_run stmt params s :
  execute store stmt params s = (store stmt params, emit (Execute stmt params) s).
Proof. reflexivity. Qed.

Lemma insert_or_update_run entry column update_fields exclude_fields do_flush s :
  let stmt := update_statement entry column update_fields exclude_fields in
  let params := get_model_dict entry in
  fst (insert_or_update store entry column update_fields exclude_fields do_flush s)
  = match store stmt params with
    | Returns _ => Returns tt
    | Raises r => Raises r
    end
  /\ trace (snd (insert_or_update store entry column update_fields exclude_fields do_flush s))
     = trace s ++ Execute stmt params :: after_execute (store stmt params) do_flush.
Proof.
  intros stmt params. unfold insert_or_update, bind.
  rewrite execute_run. fold stmt params.
  destruct (store stmt params) as [r|r]; [|done].
  destruct do_flush; cbn; rewrite <- ?app_assoc; done.
Qed.

Lemma insert_or_ignore_run entry do_flush s :
  let stmt := {| table := tablename entry;
                 postgresql_append_string := Some ON_CONFLICT_DO_NOTHING |} in
  let params := get_model_dict entry in
  fst (insert_or_ignore store entry do_flush s) = store stmt params
  /\ trace (snd (insert_or_ignore store entry do_flush s))
     = trace s ++ Execute stmt params :: after_execute (store stmt params) do_flush.
Proof.
  intros stmt params. unfold insert_or_ignore, bind.
  rewrite execute_run. fold stmt params.
  destruct (store stmt params) as [r|r]; [|done].
  destruct do_flush; cbn; rewrite <- ?app_assoc; done.
Qed.

Lemma assignment_inj : Inj (=) (=) assignment.
Proof.
  intros k1 k2 H. unfold assignment in H.
  assert (String.length k1 = String.length k2) as Hlen.
  { apply (f_equal String.length) in H.
    rewrite !length_append in H. cbn [String.length] in H. lia. }
  by destruct (append_inj_length _ _ _ _ Hlen H).
Qed.

Lemma join_nil sep : PyStr.join sep [] = "".
Proof. reflexivity. Qed.

End UpsertProperties.

Lemma elem_of_assignments (c : string) (cols : list string) :
  (c +:+ " = %(" +:+ c +:+ ")s") ∈ ((fun c => c +:+ " = %(" +:+ c +:+ ")s") <$> cols)
  <-> c ∈ cols.
Proof.
  rewrite list_elem_of_fmap. split.
  - intros (c' & Heq & Hin). by rewrite (assignment_inj _ _ Heq).
  - intros Hin. by exists c.
Qed.

(** C1, as the code has it.  The statement [insert_or_update] executes
    carries the clause [ON CONFLICT (<column>) DO UPDATE SET] followed by
    the assignments [<c> = %(<c>)s] of a duplicate-free list of columns.
    No column of [exclude_fields] is in that list, and none has its
    assignment in the clause.  The conflict column is in the list, and is
    assigned in the clause, exactly when it is among the fields the clause
    starts from (the given [update_fields], or else the declared columns of
    the record whose value is not [None]) and the caller did not exclude
    it. *)
Theorem update_clause_excludes_only_exclude_fields
    (store : Insert -> gmap string pyval -> outcome ResultProxy)
    (entry : Model) (column : string)
    (update_fields : option (gset string)) (exclude_fields : gset string)
    (do_flush : bool) (s : Session) :
  exists cols : list string,
    NoDup cols
    /\ trace (snd (insert_or_update store entry column update_fields
                     exclude_fields do_flush s))
       = trace s
         ++ Execute
              {| table := tablename entry;
                 postgresql_append_string :=
                   Some ("ON CONFLICT (" +:+ column +:+ ") DO UPDATE SET "
                         +:+ PyStr.join ", "
                               ((fun c => c +:+ " = %(" +:+ c +:+ ")s") <$> cols)) |}
              (get_model_dict entry)
            :: after_execute
                 (store (update_statement entry column update_fields exclude_fields)
                        (get_model_dict entry))
                 do_flush
    /\ (forall c,
          c ∈ exclude_fields ->
          (c ∉ cols)
          /\ (c +:+ " = %(" +:+ c +:+ ")s")
               ∉ ((fun c => c +:+ " = %(" +:+ c +:+ ")s") <$> cols))
    /\ (column ∈ cols
        <-> match update_fields with
            | Some fields => column ∈ fields
            | None => column ∈ columns entry /\ getattr entry column <> PyNone
            end /\ column ∉ exclude_fields)
    /\ ((column +:+ " = %(" +:+ column +:+ ")s")
          ∈ ((fun c => c +:+ " = %(" +:+ c +:+ ")s") <$> cols)
        <-> column ∈ cols).
Proof.
  exists (elements (effective_update_fields (get_model_dict entry)
                      update_fields exclude_fields)).
  split; [apply NoDup_elements|].
  split; [apply insert_or_update_run|].
  assert (forall c,
             c ∈ elements (effective_update_fields (get_model_dict entry)
                             update_fields exclude_fields)
             <-> match update_fields with
                 | Some fields => c ∈ fields
                 | None => c ∈ columns entry /\ getattr entry c <> PyNone
                 end /\ c ∉ exclude_fields) as Hmem.
  { intros c. rewrite elem_of_elements.
    unfold effective_update_fields, chosen_fields. rewrite elem_of_difference.
    destruct update_fields as [fields|]; [reflexivity|].
    by rewrite elem_of_dom_get_model_dict. }
  split; [|split].
  - intros c Hex.
    assert (c ∉ elements (effective_update_fields (get_model_dict entry)
                            update_fields exclude_fields)) as Hnot.
    { rewrite Hmem. tauto. }
    split; [exact Hnot|]. by rewrite elem_of_assignments.
  - apply Hmem.
  - apply elem_of_assignments.
Qed.

(** C1 fails as stated: with the defaults, the conflict column [id] of a
    widget is in the update set and is assigned in the clause. *)
Lemma conflict_column_in_update_clause :
  "id" ∈ effective_update_fields (get_model_dict widget) None ∅
  /\ postgresql_append_string (update_statement widget "id" None ∅)
     = Some "ON CONFLICT (id) DO UPDATE SET id = %(id)s, qty = %(qty)s, name = %(name)s".
Proof.
  split; [|by vm_compute].
  apply elem_of_elements.
  replace (elements (effective_update_fields (get_model_dict widget) None ∅))
    with ["id"; "qty"; "name"] by (by vm_compute).
  by left.
Qed.

(** C5.  The effective update set is the given [update_fields], or else the
    set of declared columns of the record whose value is not [None], minus
    [exclude_fields]; the statement handed to the session carries the clause
    [ON CONFLICT (<column>) DO UPDATE SET] followed by the assignments
    [<c> = %(<c>)s], joined by [", "], one for each member [c] of that set
    and no other. *)
Theorem insert_or_update_clause
    (store : Insert -> gmap string pyval -> outcome ResultProxy)
    (entry : Model) (column : string)
    (update_fields : option (gset string)) (exclude_fields : gset string)
    (do_flush : bool) (s : Session) :
  let effective :=
    effective_update_fields (get_model_dict entry) update_fields exclude_fields in
  (forall c,
      c ∈ effective
      <-> match update_fields with
          | Some fields => c ∈ fields
          | None => c ∈ columns entry /\ getattr entry c <> PyNone
          end /\ c ∉ exclude_fields)
  /\ exists cols : list string,
      NoDup cols
      /\ (forall c, c ∈ cols <-> c ∈ effective)
      /\ NoDup ((fun c => c +:+ " = %(" +:+ c +:+ ")s") <$> cols)
      /\ trace (snd (insert_or_update store entry column update_fields
                       exclude_fields do_flush s))
         = trace s
           ++ Execute
                {| table := tablename entry;
                   postgresql_append_string :=
                     Some ("ON CONFLICT (" +:+ column +:+ ") DO UPDATE SET "
                           +:+ PyStr.join ", "
                                 ((fun c => c +:+ " = %(" +:+ c +:+ ")s") <$> cols)) |}
                (get_model_dict entry)
              :: after_execute
                   (store (update_statement entry column update_fields exclude_fields)
                          (get_model_dict entry))
                   do_flush.
Proof.
  cbn zeta. split.
  - intros c. unfold effective_update_fields, chosen_fields.
    rewrite elem_of_difference.
    destruct update_fields as [fields|]; [reflexivity|].
    by rewrite elem_of_dom_get_model_dict.
  - exists (elements (effective_update_fields (get_model_dict entry)
                        update_fields exclude_fields)).
    split; [apply NoDup_elements|].
    split; [intros c; apply elem_of_elements|].
    split.
    + apply (NoDup_fmap_2 assignment (Inj0 := assignment_inj)), NoDup_elements.
    + apply insert_or_update_run.
Qed.

(** C8.  [insert_or_ignore] hands the session one insert into the table of
    the record, with the present columns of the record as parameters and the
    clause [ON CONFLICT DO NOTHING], which holds no update clause, and its
    value is what the session answered to that statement.
    [insert_or_update] executes an insert into the same table with the same
    parameters, and its value is nothing ([unit]) whenever the statement
    went through. *)
Theorem insert_or_ignore_returns_result
    (store : Insert -> gmap string pyval -> outcome ResultProxy)
    (entry : Model) (do_flush : bool) (s : Session) :
  let stmt := {| table := tablename entry;
                 postgresql_append_string := Some "ON CONFLICT DO NOTHING" |} in
  let params := get_model_dict entry in
  fst (insert_or_ignore store entry do_flush s) = store stmt params
  /\ trace (snd (insert_or_ignore store entry do_flush s))
     = trace s ++ Execute stmt params :: after_execute (store stmt params) do_flush
  /\ PyStr.contains "DO UPDATE" "ON CONFLICT DO NOTHING" = false
  /\ (forall c v, params !! c = Some v
                  <-> c ∈ columns entry /\ getattr entry c = v /\ v <> PyNone)
  /\ forall column update_fields exclude_fields,
      let stmt' := update_statement entry column update_fields exclude_fields in
      table stmt' = table stmt
      /\ trace (snd (insert_or_update store entry column update_fields
                       exclude_fields do_flush s))
         = trace s ++ Execute stmt' params :: after_execute (store stmt' params) do_flush
      /\ fst (insert_or_update store entry column update_fields
                exclude_fields do_flush s)
         = match store stmt' params with
           | Returns _ => Returns tt
           | Raises r => Raises r
           end.
Proof.
  cbn zeta.
  destruct (insert_or_ignore_run store entry do_flush s) as [Hres Htrace].
  split; [exact Hres|]. split; [exact Htrace|]. split; [reflexivity|].
  split; [apply lookup_get_model_dict_Some|].
  intros column update_fields exclude_fields.
  destruct (insert_or_update_run store entry column update_fields exclude_fields
              do_flush s) as [Hres' Htrace'].
  split; [reflexivity|]. by split.
Qed.

(** C10.  When [exclude_fields] covers every field the update clause starts
    from, [insert_or_update] makes no check of its own: it hands the session
    the statement whose clause is [ON CONFLICT (<column>) DO UPDATE SET]
    followed by no assignment at all, and its outcome is the one of that
    statement. *)
Theorem insert_or_update_empty_assignments
    (store : Insert -> gmap string pyval -> outcome ResultProxy)
    (entry : Model) (column : string)
    (update_fields : option (gset string)) (exclude_fields : gset string)
    (do_flush : bool) (s : Session) :
  chosen_fields (get_model_dict entry) update_fields ⊆ exclude_fields ->
  let stmt := {| table := tablename entry;
                 postgresql_append_string :=
                   Some ("ON CONFLICT (" +:+ column +:+ ") DO UPDATE SET ") |} in
  update_statement entry column update_fields exclude_fields = stmt
  /\ trace (snd (insert_or_update store entry column update_fields
                   exclude_fields do_flush s))
     = trace s ++ Execute stmt (get_model_dict entry)
               :: after_execute (store stmt (get_model_dict entry)) do_flush
  /\ fst (insert_or_update store entry column update_fields exclude_fields do_flush s)
     = match store stmt (get_model_dict entry) with
       | Returns _ => Returns tt
       | Raises r => Raises r
       end.
Proof.
  intros Hsub stmt.
  assert (update_statement entry column update_fields exclude_fields = stmt) as Hstmt.
  { unfold update_statement, stmt. f_equal. f_equal.
    assert (effective_update_fields (get_model_dict entry) update_fields exclude_fields
            = ∅) as ->.
    { unfold effective_update_fields. unfold chosen_fields in Hsub.
      apply set_eq. intros c. rewrite elem_of_difference.
      split; [intros [Hc Hn]; destruct Hn; by apply Hsub | by intros ?%elem_of_empty]. }
    unfold update_string, ON_CONFLICT_DO_UPDATE.
    rewrite elements_empty. cbn [fmap list_fmap PyStr.join].
    by rewrite <- (append_nil_r (") DO UPDATE SET ")) at 2. }
  split; [exact Hstmt|].
  destruct (insert_or_update_run store entry column update_fields exclude_fields
              do_flush s) as [Hres Htrace].
  rewrite Hstmt in Hres, Htrace. by split.
Qed.

Lemma insert_or_update_empty_assignments_witness :
  trace (snd (insert_or_update accepting_store widget "qty" (Some {["qty"]}) {["qty"]}
                false new_session))
  = [Execute {| table := "widgets";
                postgresql_append_string := Some "ON CONFLICT (qty) DO UPDATE SET " |}
             (get_model_dict widget)].
Proof.
  destruct (insert_or_update_empty_assignments accepting_store widget "qty"
              (Some {["qty"]}) {["qty"]} false new_session) as (_ & H & _).
  - cbn [chosen_fields]. reflexivity.
  - exact H.
Defined.

(** ** Connection manager *)

(** What a (re)initialisation leaves behind: a new engine and the two
    session factories bound to it. *)
Lemma init_db_creates env force attrs created :
  force = true \/ DB.engine attrs = None ->
  DB.init_db env force ((Some attrs : DB.state), created)
  = (Returns tt, DB.assign_all env created).
Proof.
  intros [-> | Hnone]; unfold DB.init_db; [reflexivity|].
  destruct force; [reflexivity|]. cbn [fst snd DB.get_engine]. by rewrite Hnone.
Qed.

Lemma init_db_forced env db created :
  DB.init_db env true (db, created) = (Returns tt, DB.assign_all env created).
Proof. reflexivity. Qed.

Lemma init_db_keeps env attrs created e :
  DB.engine attrs = Some e ->
  DB.init_db env false ((Some attrs : DB.state), created)
  = (Returns tt, ((Some attrs : DB.state), created)).
Proof. intros H. unfold DB.init_db. cbn [fst snd DB.get_engine]. by rewrite H. Qed.

Lemma init_db_unassigned env created :
  DB.init_db env false (DB.unassigned, created)
  = (Raises (Error "AttributeError"), (DB.unassigned, created)).
Proof. reflexivity. Qed.

(** C9.  What [init_db] does in each state of [DB._db].  With an engine in
    place, [init_db(force=False)] returns and changes neither the engine
    nor the two session factories, and builds no engine; a repeated
    unforced call does what the first did and changes nothing more.  With
    [force=True], in any state, and without [force] when the engine
    attribute holds [None], the engine and both factories are replaced by
    new ones, the factories bound to the new engine.  In a thread where the
    attributes of [_db] were never assigned (any thread but the one that
    ran the class body), [init_db(force=False)] raises [AttributeError]
    and builds nothing, although no engine exists there. *)
Theorem init_db_guarded_reinit (env : DB.Environment) (db : DB.state) (created : nat) :
  (forall attrs e,
      db = Some attrs -> DB.engine attrs = Some e ->
      DB.init_db env false (db, created) = (Returns tt, (db, created)))
  /\ DB.init_db env false (snd (DB.init_db env false (db, created)))
     = DB.init_db env false (db, created)
  /\ (forall force,
        force = true \/ (exists attrs, db = Some attrs /\ DB.engine attrs = None) ->
        let e := DB.default_engine env created in
        DB.init_db env force (db, created)
        = (Returns tt,
           (Some {| DB.engine := Some e;
                    DB.Session :=
                      Some {| DB.bound_to := e; DB.autocommit := false;
                              DB.autoflush := true |};
                    DB.AutoSession :=
                      Some {| DB.bound_to := e; DB.autocommit := true;
                              DB.autoflush := true |} |},
            S created))
        /\ DB.serial e = created)
  /\ (db = DB.unassigned ->
      DB.init_db env false (db, created)
      = (Raises (Error "AttributeError"), (DB.unassigned, created))).
Proof.
  split; [|split; [|split]].
  - intros attrs e -> He. by apply (init_db_keeps _ _ _ e).
  - destruct db as [attrs|]; [|reflexivity].
    destruct (DB.engine attrs) as [e|] eqn:He.
    + rewrite (init_db_keeps _ _ _ _ He). cbn [snd].
      by rewrite (init_db_keeps _ _ _ _ He).
    + rewrite (init_db_creates env false attrs created (or_intror He)).
      reflexivity.
  - intros force H. cbn zeta. split; [|reflexivity].
    destruct H as [-> | (attrs & -> & He)]; [reflexivity|].
    by rewrite (init_db_creates _ _ _ _ (or_intror He)).
  - intros ->. reflexivity.
Qed.

Lemma init_db_guarded_reinit_witness :
  DB.init_db local_env false (snd (DB.init_db local_env true (DB.initial, 0%nat)))
  = (Returns tt, snd (DB.init_db local_env true (DB.initial, 0%nat)))
  /\ fst (snd (DB.init_db local_env false (DB.initial, 0%nat))) <> DB.initial
  /\ DB.init_db local_env false (DB.unassigned, 0%nat)
     = (Raises (Error "AttributeError"), (DB.unassigned, 0%nat)).
Proof.
  split; [|split].
  - destruct (init_db_guarded_reinit local_env
                (fst (snd (DB.init_db local_env true (DB.initial, 0%nat)))) 1%nat)
      as [H _].
    exact (H _ _ eq_refl eq_refl).
  - destruct (init_db_guarded_reinit local_env DB.initial 0%nat) as (_ & _ & H & _).
    destruct (H false (or_intror (ex_intro _ _ (conj eq_refl eq_refl)))) as [-> _].
    discriminate.
  - destruct (init_db_guarded_reinit local_env DB.unassigned 0%nat) as (_ & _ & _ & H).
    exact (H eq_refl).
Defined.

(** ** Scoped session context *)

(** C7.  When the block raises an error, the context logs it, rolls the
    transaction back and closes the session, in this order and with nothing
    in between; when the block ends normally, the context only closes the
    session: it issues no commit. *)
Theorem ctx_rollback_then_close {A : Type} (body : M A) (s s1 : Session) :
  (forall err,
      body s = (Raises (Error err), s1) ->
      trace (snd (DB.ctx body s))
      = trace s1
        ++ [LogException "caught exception in db context, rolling back transaction" err;
            Rollback; Close])
  /\ (forall a,
        body s = (Returns a, s1) ->
        DB.ctx body s
        = (Returns (Some a),
           {| trace := trace s1 ++ [Close]; pending := []; flushed := flushed s1 |})).
Proof.
  split.
  - intros err H. unfold DB.ctx. rewrite H. cbn. by rewrite <- !app_assoc.
  - intros a H. unfold DB.ctx. by rewrite H.
Qed.

Lemma ctx_rollback_then_close_witness :
  trace (snd (DB.ctx (tell Flush ;;; raise (A := unit) (Error "IntegrityError")) new_session))
  = [Flush;
     LogException "caught exception in db context, rolling back transaction" "IntegrityError";
     Rollback; Close]
  /\ trace (snd (DB.ctx (tell Flush) new_session)) = [Flush; Close].
Proof.
  split.
  - destruct (ctx_rollback_then_close
                (tell Flush ;;; raise (A := unit) (Error "IntegrityError"))
                new_session (emit Flush new_session)) as [H _].
    exact (H "IntegrityError" eq_refl).
  - destruct (ctx_rollback_then_close (tell Flush)
                new_session (emit Flush new_session)) as [_ H].
    by rewrite (H tt eq_refl).
Defined.

(** ** Streaming mapper *)

Section Mapper.

Variable f : obj -> outcome pyval.

Lemma commits_app t1 t2 :
  DBMapper.commits (t1 ++ t2) = (DBMapper.commits t1 + DBMapper.commits t2)%nat.
Proof. unfold DBMapper.commits. by rewrite List.filter_app, length_app. Qed.

Lemma yielded_app t1 t2 :
  DBMapper.yielded (t1 ++ t2) = DBMapper.yielded t1 ++ DBMapper.yielded t2.
Proof. unfold DBMapper.yielded. apply omap_app. Qed.

Lemma yielded_yields (vs : list pyval) : DBMapper.yielded (Yield <$> vs) = vs.
Proof. induction vs as [|v vs IH]; [reflexivity|]. cbn. by f_equal. Qed.

Lemma commits_yields (vs : list pyval) : DBMapper.commits (Yield <$> vs) = O.
Proof. induction vs as [|v vs IH]; [reflexivity|]. exact IH. Qed.

(** One step of the loop on a row the transform returns on. *)
Lemma loop_row_returns tee entry v rest s :
  f entry = Returns v ->
  DBMapper.loop f tee (DBMapper.Row entry :: rest) s
  = DBMapper.loop f tee rest
      {| trace := trace s ++ (if tee then [Yield v] else []);
         pending := pending s ++ [entry];
         flushed := flushed s |}.
Proof.
  intros H. cbn [DBMapper.loop]. unfold bind, attach, DBMapper._error_handler.
  rewrite H. destruct tee; cbn; [reflexivity|]. by rewrite app_nil_r.
Qed.

(** One step of the loop on a row the transform fails on. *)
Lemma loop_row_fails tee entry err rest s :
  f entry = Raises (Error err) ->
  DBMapper.loop f tee (DBMapper.Row entry :: rest) s
  = DBMapper.loop f tee rest
      {| trace := trace s
                  ++ [LogError "caught error during mapping, skipping" err; Expunge entry]
                  ++ (if tee then [Yield PyNone] else []);
         pending := List.filter (fun p => negb (Nat.eqb p entry)) (pending s ++ [entry]);
         flushed := flushed s |}.
Proof.
  intros H. cbn [DBMapper.loop]. unfold bind, attach, DBMapper._error_handler.
  rewrite H. unfold bind, tell, expunge, ret, emit.
  destruct tee; cbn [trace pending flushed fst snd];
    f_equal; f_equal; rewrite <- ?app_assoc; [reflexivity|].
  by rewrite app_nil_r.
Qed.

(** The loop over rows the transform returns on. *)
Lemma loop_rows_return tee rows rest s :
  forallb (DBMapper.succeeds f) rows = true ->
  DBMapper.loop f tee ((DBMapper.Row <$> rows) ++ rest) s
  = DBMapper.loop f tee rest
      {| trace := trace s
                  ++ (if tee then Yield <$> (DBMapper.value_of f <$> rows) else []);
         pending := pending s ++ rows;
         flushed := flushed s |}.
Proof.
  revert s; induction rows as [|r rows IH]; intros s H.
  - cbn. destruct tee; rewrite !app_nil_r; by destruct s.
  - cbn [forallb] in H. apply andb_true_iff in H as [Hr Hrows].
    unfold DBMapper.succeeds in Hr.
    destruct (f r) as [v|] eqn:Hf; [|discriminate].
    cbn [fmap list_fmap app]. rewrite (loop_row_returns _ _ _ _ _ Hf).
    change (list_fmap obj DBMapper.fetch DBMapper.Row rows) with (DBMapper.Row <$> rows).
    rewrite (IH _ Hrows). cbn [trace pending flushed].
    unfold DBMapper.value_of at 2. rewrite Hf.
    f_equal. f_equal; [|by rewrite <- app_assoc].
    destruct tee; rewrite <- app_assoc; [reflexivity|]. by rewrite !app_nil_r.
Qed.

(** The loop itself never commits and never flushes. *)
Lemma loop_no_commit tee query s :
  DBMapper.commits (trace (snd (DBMapper.loop f tee query s))) = DBMapper.commits (trace s)
  /\ flushed (snd (DBMapper.loop f tee query s)) = flushed s.
Proof.
  revert s; induction query as [|[entry|r] query IH]; intros s; [done| |done].
  destruct (f entry) as [v|[err|err]] eqn:Hf.
  - rewrite (loop_row_returns _ _ _ _ _ Hf).
    destruct (IH {| trace := trace s ++ (if tee then [Yield v] else []);
                    pending := pending s ++ [entry];
                    flushed := flushed s |}) as [-> ->].
    cbn [trace flushed]. rewrite !commits_app. split; [|reflexivity].
    destruct tee; cbn; lia.
  - rewrite (loop_row_fails _ _ _ _ _ Hf).
    destruct (IH {| trace := trace s
                      ++ [LogError "caught error during mapping, skipping" err;
                          Expunge entry]
                      ++ (if tee then [Yield PyNone] else []);
                    pending := List.filter (fun p => negb (Nat.eqb p entry))
                                 (pending s ++ [entry]);
                    flushed := flushed s |}) as [-> ->].
    cbn [trace flushed]. rewrite !commits_app. split; [|reflexivity].
    destruct tee; cbn; lia.
  - cbn [DBMapper.loop]. unfold bind, attach, DBMapper._error_handler.
    by rewrite Hf.
Qed.

End Mapper.

Lemma forallb_succeeds_not_failing f rows k err :
  f k = Raises (Error err) ->
  forallb (DBMapper.succeeds f) rows = true ->
  k ∉ rows.
Proof.
  intros Hk Hrows Hin. apply list_elem_of_In in Hin.
  pose proof (proj1 (forallb_forall _ _) Hrows k Hin) as H.
  unfold DBMapper.succeeds in H. by rewrite Hk in H.
Qed.

Lemma filter_absent (k : nat) (rows : list nat) :
  k ∉ rows -> List.filter (fun p => negb (Nat.eqb p k)) rows = rows.
Proof.
  induction rows as [|r rows IH]; intros H; [reflexivity|].
  apply not_elem_of_cons in H as [Hne Hin]. cbn [List.filter].
  destruct (Nat.eqb_spec r k) as [->|_]; [done|]. cbn. by rewrite IH.
Qed.

Lemma not_elem_of_filter_out (k : nat) (rows : list nat) :
  k ∉ List.filter (fun p => negb (Nat.eqb p k)) rows.
Proof.
  intros H. apply list_elem_of_In, filter_In in H as [_ H].
  by rewrite Nat.eqb_refl in H.
Qed.

(** C2, as the code has it.  A pass over [N] rows in which the transform
    raises an error on row [k] only, with [tee=True] and driven to its end:
    the consumer receives [N] values, the result of the transform for each
    of the [N-1] other rows, in row order, and [None] in the place of row
    [k]; the error is logged and row [k] is expunged before the one commit
    of the pass, which is its last call but the close; the commit sends the
    other rows of the pass and not row [k]. *)
Theorem map_isolates_failed_row
    (f : obj -> outcome pyval) (pre post : list obj) (k : obj) (err : string)
    (s : Session) :
  f k = Raises (Error err) ->
  forallb (DBMapper.succeeds f) (pre ++ post) = true ->
  let rows := pre ++ k :: post in
  let delta :=
    (Yield <$> (DBMapper.value_of f <$> pre))
    ++ [LogError "caught error during mapping, skipping" err; Expunge k; Yield PyNone]
    ++ (Yield <$> (DBMapper.value_of f <$> post))
    ++ [Commit; Close] in
  let written :=
    List.filter (fun p => negb (Nat.eqb p k)) (pending s) ++ pre ++ post in
  DBMapper.map f true (DBMapper.Row <$> rows) s
  = (Returns (Some tt),
     {| trace := trace s ++ delta; pending := []; flushed := flushed s ++ written |})
  /\ DBMapper.yielded delta
     = (DBMapper.value_of f <$> pre) ++ PyNone :: (DBMapper.value_of f <$> post)
  /\ length (DBMapper.yielded delta) = length rows
  /\ (forall r, r ∈ pre ++ post -> f r = Returns (DBMapper.value_of f r))
  /\ DBMapper.commits delta = 1%nat
  /\ (k ∉ written)
  /\ (forall r, r ∈ pre ++ post -> r ∈ written).
Proof.
  intros Hk Hall rows delta written.
  pose proof (forallb_succeeds_not_failing _ _ _ _ Hk Hall) as Hnotin.
  rewrite forallb_app in Hall. apply andb_true_iff in Hall as [Hpre Hpost].
  apply not_elem_of_app in Hnotin as [Hkpre Hkpost].
  assert (DBMapper.yielded delta
          = (DBMapper.value_of f <$> pre) ++ PyNone :: (DBMapper.value_of f <$> post))
    as Hyield.
  { unfold delta. rewrite !yielded_app, !yielded_yields. cbn.
    by rewrite app_nil_r. }
  split; [|split; [exact Hyield|split; [|split; [|split; [|split]]]]].
  - unfold DBMapper.map, DB.ctx, bind at 1, rows.
    rewrite fmap_app, (loop_rows_return f true pre _ s Hpre).
    cbn [fmap list_fmap]. rewrite (loop_row_fails f true k err _ _ Hk).
    cbn [trace pending flushed].
    change (list_fmap obj DBMapper.fetch DBMapper.Row post) with (DBMapper.Row <$> post).
    rewrite <- (app_nil_r (DBMapper.Row <$> post)).
    rewrite (loop_rows_return f true post [] _ Hpost).
    cbn. unfold delta, written. f_equal. f_equal.
    + rewrite <- !app_assoc. reflexivity.
    + rewrite !List.filter_app. cbn [List.filter]. rewrite Nat.eqb_refl.
      cbn [negb]. unfold obj in *.
      rewrite (filter_absent k pre Hkpre), app_nil_r, <- !app_assoc. reflexivity.
  - rewrite Hyield. unfold rows. rewrite !length_app. cbn. by rewrite !length_fmap.
  - intros r Hr. apply list_elem_of_In in Hr.
    rewrite forallb_forall in Hpre, Hpost. apply in_app_or in Hr.
    assert (DBMapper.succeeds f r = true) as H by (destruct Hr; auto).
    unfold DBMapper.succeeds, DBMapper.value_of in *. by destruct (f r).
  - unfold delta. rewrite !commits_app, !commits_yields. reflexivity.
  - unfold written. rewrite !not_elem_of_app.
    split; [apply not_elem_of_filter_out | by split].
  - intros r Hr. unfold written. apply elem_of_app. by right.
Qed.

Lemma map_isolates_failed_row_witness :
  DBMapper.map fails_on_1 true [DBMapper.Row 0%nat; DBMapper.Row 1%nat; DBMapper.Row 2%nat]
    new_session
  = (Returns (Some tt),
     {| trace := [Yield (PyObj 0%nat);
                  LogError "caught error during mapping, skipping" "ValueError";
                  Expunge 1%nat; Yield PyNone; Yield (PyObj 2%nat); Commit; Close];
        pending := [];
        flushed := [0%nat; 2%nat] |}).
Proof.
  destruct (map_isolates_failed_row fails_on_1 [0%nat] [2%nat] 1%nat "ValueError"
              new_session eq_refl eq_refl) as [H _].
  exact H.
Defined.

(** C2 fails as stated: over three rows with the transform failing on the
    second, the consumer receives three values, not two; the second is
    [None]. *)
Lemma map_yields_None_for_failed_row :
  DBMapper.yielded
    (trace (snd (DBMapper.map fails_on_1 true
                   [DBMapper.Row 0%nat; DBMapper.Row 1%nat; DBMapper.Row 2%nat]
                   new_session)))
  = [PyObj 0%nat; PyNone; PyObj 2%nat]
  /\ length (DBMapper.yielded
               (trace (snd (DBMapper.map fails_on_1 true
                              [DBMapper.Row 0%nat; DBMapper.Row 1%nat; DBMapper.Row 2%nat]
                              new_session))))
     <> (3 - 1)%nat.
Proof. split; [reflexivity | discriminate]. Qed.

(** C3, as the code has it.  An error raised inside a scoped session block
    does not reach the caller: the context logs it, rolls back, closes the
    session, and the [with] statement ends normally.  Only what is not an
    [Exception] leaves the block, after the close.  In a mapper pass whose
    iteration raises, in either way, no commit is issued and nothing is
    sent to the store. *)
Theorem whole_pass_error_is_caught_without_commit
    {A : Type} (body : M A)
    (f : obj -> outcome pyval) (tee : bool) (query : list DBMapper.fetch)
    (s s1 : Session) :
  (forall err,
      body s = (Raises (Error err), s1) ->
      DB.ctx body s
      = (Returns None,
         {| trace := trace s1
                     ++ [LogException
                           "caught exception in db context, rolling back transaction" err;
                         Rollback; Close];
            pending := [];
            flushed := flushed s1 |}))
  /\ (forall err,
        body s = (Raises (Interrupt err), s1) ->
        DB.ctx body s
        = (Raises (Interrupt err),
           {| trace := trace s1 ++ [Close]; pending := []; flushed := flushed s1 |}))
  /\ (forall r,
        DBMapper.loop f tee query s = (Raises r, s1) ->
        DBMapper.commits (trace (snd (DBMapper.map f tee query s)))
        = DBMapper.commits (trace s)
        /\ flushed (snd (DBMapper.map f tee query s)) = flushed s
        /\ fst (DBMapper.map f tee query s)
           = match r with
             | Error _ => Returns None
             | Interrupt err => Raises (Interrupt err)
             end).
Proof.
  split; [|split].
  - intros err H. unfold DB.ctx. rewrite H. cbn. by rewrite <- !app_assoc.
  - intros err H. unfold DB.ctx. by rewrite H.
  - intros r H.
    destruct (loop_no_commit f tee query s) as [Hc Hf]. rewrite H in Hc, Hf.
    cbn [snd] in Hc, Hf.
    assert ((DBMapper.loop f tee query;;; commit) s = (Raises r, s1)) as Hbody.
    { unfold bind. by rewrite H. }
    unfold DBMapper.map, DB.ctx. rewrite Hbody.
    destruct r as [err|err];
      unfold bind, tell, rollback, close, ret, raise, emit;
      cbn [fst snd trace flushed];
      rewrite <- ?app_assoc, commits_app, Hc;
      (split; [cbn; lia | split; [exact Hf | reflexivity]]).
Qed.

Lemma whole_pass_error_is_caught_without_commit_witness :
  DBMapper.commits
    (trace (snd (DBMapper.map fails_on_1 true
                   [DBMapper.Row 0%nat; DBMapper.Broken (Error "OperationalError");
                    DBMapper.Row 2%nat]
                   new_session)))
  = O
  /\ fst (DBMapper.map fails_on_1 true
            [DBMapper.Row 0%nat; DBMapper.Broken (Error "OperationalError");
             DBMapper.Row 2%nat]
            new_session)
     = Returns None.
Proof.
  destruct (whole_pass_error_is_caught_without_commit
              (DBMapper.loop fails_on_1 true
                 [DBMapper.Row 0%nat; DBMapper.Broken (Error "OperationalError");
                  DBMapper.Row 2%nat])
              fails_on_1 true
              [DBMapper.Row 0%nat; DBMapper.Broken (Error "OperationalError");
               DBMapper.Row 2%nat]
              new_session
              {| trace := [Yield (PyObj 0%nat)]; pending := [0%nat]; flushed := [] |})
    as (_ & _ & H).
  destruct (H (Error "OperationalError") eq_refl) as (Hc & _ & Hr).
  split; [exact Hc | exact Hr].
Defined.

(** C3 fails as stated: a connection lost after the first row does not
    surface; the pass ends as if the table were exhausted, with the values
    received so far, a rollback and no commit. *)
Lemma connection_loss_does_not_propagate :
  DBMapper.map fails_on_1 true
    [DBMapper.Row 0%nat; DBMapper.Broken (Error "OperationalError"); DBMapper.Row 2%nat]
    new_session
  = (Returns None,
     {| trace := [Yield (PyObj 0%nat);
                  LogException "caught exception in db context, rolling back transaction"
                    "OperationalError";
                  Rollback; Close];
        pending := [];
        flushed := [] |})
  /\ fst (DBMapper.map fails_on_1 true
            [DBMapper.Row 0%nat; DBMapper.Broken (Error "OperationalError");
             DBMapper.Row 2%nat]
            new_session)
     <> Raises (Error "OperationalError").
Proof. split; [reflexivity | discriminate]. Qed.

(** * Further properties *)

(** ** The compiler hook, continued *)

(** Replacing never shortens a text when the replacement is at least as
    long as what it replaces. *)
Lemma length_replace_from old new skip s :
  (0 < String.length old <= String.length new)%nat ->
  (String.length s - skip <= String.length (PyStr.replace_from old new skip s))%nat.
Proof.
  intros Hlen. revert skip; induction s as [|c s IH]; intros skip;
    [cbn [PyStr.replace_from String.length]; lia|].
  cbn [PyStr.replace_from String.length]. destruct skip as [|k].
  - destruct (String.prefix old (String c s)).
    + rewrite length_append. specialize (IH (Nat.pred (String.length old))). lia.
    + cbn [String.length]. specialize (IH O). lia.
  - specialize (IH k). lia.
Qed.

(** Replacing makes a text longer when the replacement is longer than what
    it replaces and there is something to replace. *)
Lemma length_replace_from_present old new s :
  PyStr.contains old s = true ->
  (0 < String.length old < String.length new)%nat ->
  (String.length s < String.length (PyStr.replace_from old new O s))%nat.
Proof.
  intros Hc Hlen. induction s as [|c s IH].
  - cbn [PyStr.contains] in Hc. rewrite orb_false_r in Hc.
    destruct old; [cbn [String.length] in Hlen; lia | discriminate].
  - change (PyStr.contains old (String c s))
      with (String.prefix old (String c s) || PyStr.contains old s) in Hc.
    cbn [PyStr.replace_from].
    destruct (String.prefix old (String c s)) eqn:Hp.
    + rewrite length_append.
      pose proof (length_replace_from old new (Nat.pred (String.length old)) s) as Hl.
      cbn [String.length]. lia.
    + cbn [orb] in Hc. specialize (IH Hc). cbn [String.length]. lia.
Qed.

(** X1.  The hook is the stock compiler exactly when no clause is given: with
    [None] or the empty text as append string the compiled text is returned
    as it is, and with any other append string the result is strictly
    longer than the compiled text. *)
Theorem append_string_identity_without_clause
    (visit_insert : Insert -> string) (insert : Insert) :
  (postgresql_append_string insert = None \/ postgresql_append_string insert = Some ""
   -> append_string visit_insert insert = visit_insert insert)
  /\ (forall clause,
        postgresql_append_string insert = Some clause -> clause <> "" ->
        (String.length (visit_insert insert)
         < String.length (append_string visit_insert insert))%nat).
Proof.
  split.
  - intros [H | H]; unfold append_string; by rewrite H.
  - intros clause Hkw Hne. unfold append_string.
    rewrite Hkw, (truthy_Some _ Hne).
    destruct (PyStr.contains "RETURNING" (visit_insert insert)) eqn:Hc.
    + pose proof (rfind_present _ _ Hc) as Hr.
      destruct (Z.eqb_spec (PyStr.rfind (visit_insert insert) "RETURNING") (-1)); [lia|].
      unfold PyStr.replace.
      apply (length_replace_from_present _ _ _ Hc).
      change (" " +:+ clause +:+ " RETURNING ")
        with (String " " (clause +:+ " RETURNING ")).
      cbn [String.length]. rewrite length_append. cbn [String.length]. lia.
    + rewrite (rfind_absent _ _ Hc), Z.eqb_refl, length_append.
      change (" " +:+ clause) with (String " " clause). cbn [String.length]. lia.
Qed.

Lemma append_string_identity_without_clause_witness :
  append_string (fun _ => "INSERT INTO widgets (id) VALUES (%(id)s)")
    {| table := "widgets"; postgresql_append_string := Some "" |}
  = "INSERT INTO widgets (id) VALUES (%(id)s)".
Proof.
  destruct (append_string_identity_without_clause
              (fun _ => "INSERT INTO widgets (id) VALUES (%(id)s)")
              {| table := "widgets"; postgresql_append_string := Some "" |}) as [H _].
  exact (H (or_intror eq_refl)).
Defined.

(** X2.  The replacement is global: a compiled text in which [RETURNING] occurs
    twice (in a quoted name as well as as the keyword, say) comes back with
    the clause put before both occurrences. *)
Theorem append_string_every_occurrence
    (visit_insert : Insert -> string) (insert : Insert) (clause a b c : string) :
  postgresql_append_string insert = Some clause ->
  clause <> "" ->
  visit_insert insert = a +:+ "RETURNING" +:+ b +:+ "RETURNING" +:+ c ->
  PyStr.contains "RETURNING" a = false ->
  PyStr.contains "RETURNING" b = false ->
  PyStr.contains "RETURNING" c = false ->
  append_string visit_insert insert
  = a +:+ " " +:+ clause +:+ " RETURNING " +:+ b
      +:+ " " +:+ clause +:+ " RETURNING " +:+ c.
Proof.
  intros Hkw Hne Hs Ha Hb Hc. unfold append_string.
  rewrite Hkw, (truthy_Some _ Hne), Hs.
  pose proof (rfind_present _ _
                (contains_RETURNING_app a (b +:+ "RETURNING" +:+ c))) as Hr.
  destruct (Z.eqb_spec
              (PyStr.rfind (a +:+ "RETURNING" +:+ b +:+ "RETURNING" +:+ c) "RETURNING")
              (-1)); [lia|].
  unfold PyStr.replace.
  rewrite (replace_from_around_RETURNING _ _ a _ (le_n _)).
  rewrite (replace_from_around_RETURNING _ _ b _ (le_n _)).
  rewrite (replace_from_absent _ _ _ Ha), (replace_from_absent _ _ _ Hb),
    (replace_from_absent _ _ _ Hc).
  by rewrite !append_assoc.
Qed.

Lemma append_string_every_occurrence_witness :
  append_string
    (fun _ => "INSERT INTO RETURNING_LOG (id) VALUES (%(id)s) RETURNING id")
    {| table := "RETURNING_LOG"; postgresql_append_string := Some ON_CONFLICT_DO_NOTHING |}
  = "INSERT INTO  ON CONFLICT DO NOTHING RETURNING _LOG (id) VALUES (%(id)s)  ON CONFLICT DO NOTHING RETURNING  id".
Proof.
  exact (append_string_every_occurrence
           (fun _ => "INSERT INTO RETURNING_LOG (id) VALUES (%(id)s) RETURNING id")
           {| table := "RETURNING_LOG";
              postgresql_append_string := Some ON_CONFLICT_DO_NOTHING |}
           ON_CONFLICT_DO_NOTHING
           "INSERT INTO " "_LOG (id) VALUES (%(id)s) " " id"
           eq_refl ltac:(discriminate) eq_refl eq_refl eq_refl eq_refl).
Defined.

(** ** Upsert engine, continued *)

(** X3.  An execution error leaves either upsert at once: when
    [session.execute] raises, the call raises the same to its caller, no
    flush follows even when one was asked for, and the working set of the
    session is as it was. *)
Theorem upsert_execution_error_propagates
    (store : Insert -> gmap string pyval -> outcome ResultProxy)
    (entry : Model) (column : string)
    (update_fields : option (gset string)) (exclude_fields : gset string)
    (do_flush : bool) (s : Session) :
  (forall r,
      store (update_statement entry column update_fields exclude_fields)
            (get_model_dict entry) = Raises r ->
      insert_or_update store entry column update_fields exclude_fields do_flush s
      = (Raises r,
         {| trace := trace s
                     ++ [Execute
                           (update_statement entry column update_fields exclude_fields)
                           (get_model_dict entry)];
            pending := pending s;
            flushed := flushed s |}))
  /\ (forall r,
        store {| table := tablename entry;
                 postgresql_append_string := Some ON_CONFLICT_DO_NOTHING |}
              (get_model_dict entry) = Raises r ->
        insert_or_ignore store entry do_flush s
        = (Raises r,
           {| trace := trace s
                       ++ [Execute {| table := tablename entry;
                                      postgresql_append_string :=
                                        Some ON_CONFLICT_DO_NOTHING |}
                                   (get_model_dict entry)];
              pending := pending s;
              flushed := flushed s |})).
Proof.
  split.
  - intros r Hu. unfold insert_or_update, bind. rewrite execute_run. by rewrite Hu.
  - intros r Hi. unfold insert_or_ignore, bind. rewrite execute_run. by rewrite Hi.
Qed.

Lemma upsert_execution_error_propagates_witness :
  fst (insert_or_update rejecting_store widget "id" None ∅ true new_session)
  = Raises (Error "IntegrityError")
  /\ fst (insert_or_ignore rejecting_store widget true new_session)
     = Raises (Error "IntegrityError").
Proof.
  destruct (upsert_execution_error_propagates rejecting_store widget "id" None ∅ true
              new_session) as [Hu Hi].
  split; [by rewrite (Hu _ eq_refl) | by rewrite (Hi _ eq_refl)].
Defined.

(** X4.  With [update_fields] left out, every column assigned in the update
    clause is a column of the insert: its parameter is in the mapping handed
    to [session.execute], with the value of the record, which is not
    [None]. *)
Theorem default_update_fields_are_bound
    (entry : Model) (exclude_fields : gset string) (c : string) :
  c ∈ effective_update_fields (get_model_dict entry) None exclude_fields ->
  get_model_dict entry !! c = Some (getattr entry c)
  /\ getattr entry c <> PyNone
  /\ c ∈ columns entry.
Proof.
  unfold effective_update_fields, chosen_fields.
  intros [Hdom _]%elem_of_difference.
  apply elem_of_dom_get_model_dict in Hdom as [Hin Hv].
  split; [|by split].
  apply lookup_get_model_dict_Some. by repeat split.
Qed.

Lemma default_update_fields_are_bound_witness :
  get_model_dict widget_without_name !! "qty" = Some (PyInt 9).
Proof.
  assert ("qty" ∈ effective_update_fields (get_model_dict widget_without_name)
                    None {["id"]}) as Hin.
  { apply elem_of_elements.
    replace (elements (effective_update_fields (get_model_dict widget_without_name)
                         None {["id"]}))
      with ["qty"] by (by vm_compute).
    by left. }
  destruct (default_update_fields_are_bound widget_without_name {["id"]} "qty" Hin)
    as [H _].
  exact H.
Defined.

(** X5.  Fields given in [update_fields] are not checked against the
    record.  For a given field that is not excluded and for which the record
    holds [None], the statement [insert_or_update] executes has the
    assignment [<c> = %(<c>)s] of that field among the assignments of its
    clause [ON CONFLICT (<column>) DO UPDATE SET ...], while the parameter
    mapping executed with it has no entry for the field. *)
Theorem given_update_fields_are_unchecked
    (store : Insert -> gmap string pyval -> outcome ResultProxy)
    (entry : Model) (column : string)
    (fields exclude_fields : gset string) (c : string)
    (do_flush : bool) (s : Session) :
  c ∈ fields ->
  c ∉ exclude_fields ->
  getattr entry c = PyNone ->
  exists cols : list string,
    c ∈ cols
    /\ (c +:+ " = %(" +:+ c +:+ ")s")
         ∈ ((fun c => c +:+ " = %(" +:+ c +:+ ")s") <$> cols)
    /\ trace (snd (insert_or_update store entry column (Some fields)
                     exclude_fields do_flush s))
       = trace s
         ++ Execute
              {| table := tablename entry;
                 postgresql_append_string :=
                   Some ("ON CONFLICT (" +:+ column +:+ ") DO UPDATE SET "
                         +:+ PyStr.join ", "
                               ((fun c => c +:+ " = %(" +:+ c +:+ ")s") <$> cols)) |}
              (get_model_dict entry)
            :: after_execute
                 (store (update_statement entry column (Some fields) exclude_fields)
                        (get_model_dict entry))
                 do_flush
    /\ get_model_dict entry !! c = None.
Proof.
  intros Hin Hex Hnone.
  exists (elements (effective_update_fields (get_model_dict entry)
                      (Some fields) exclude_fields)).
  assert (c ∈ elements (effective_update_fields (get_model_dict entry)
                          (Some fields) exclude_fields)) as Heff.
  { apply elem_of_elements. unfold effective_update_fields, chosen_fields.
    by apply elem_of_difference. }
  split; [exact Heff|]. split; [by apply elem_of_assignments|].
  split; [apply insert_or_update_run|].
  rewrite lookup_get_model_dict. case_decide as H; [|reflexivity].
  destruct H as [_ H]. congruence.
Qed.

Lemma given_update_fields_are_unchecked_witness :
  trace (snd (insert_or_update accepting_store widget_without_name "id"
                (Some {["name"]}) ∅ false new_session))
  = [Execute {| table := "widgets";
                postgresql_append_string :=
                  Some "ON CONFLICT (id) DO UPDATE SET name = %(name)s" |}
             (get_model_dict widget_without_name)]
  /\ get_model_dict widget_without_name !! "name" = None.
Proof.
  destruct (given_update_fields_are_unchecked accepting_store widget_without_name "id"
              {["name"]} ∅ "name" false new_session) as (cols & _ & _ & _ & H).
  - by apply elem_of_singleton.
  - apply not_elem_of_empty.
  - reflexivity.
  - split; [by vm_compute | exact H].
Defined.

(** ** Scoped session context, continued *)

(** X6.  Whatever way the block ends (normally, with an error, or with what is
    not an [Exception]) the context closes the session as its last call,
    adds no commit of its own, leaves nothing staged, and keeps what the
    block had sent to the store.  It rolls back exactly when the block
    raised an error, and what it hands to the caller is never an error. *)
Theorem ctx_closes_on_every_path {A : Type} (body : M A) (s : Session) :
  exists t,
    trace (snd (DB.ctx body s)) = trace (snd (body s)) ++ t ++ [Close]
    /\ DBMapper.commits t = O
    /\ (existsb is_rollback t = true <-> exists err, fst (body s) = Raises (Error err))
    /\ pending (snd (DB.ctx body s)) = []
    /\ flushed (snd (DB.ctx body s)) = flushed (snd (body s))
    /\ forall err, fst (DB.ctx body s) <> Raises (Error err).
Proof.
  unfold DB.ctx. destruct (body s) as [[a|[err|err]] s1]; cbn [fst snd].
  - exists []. cbn. repeat split; try done. by intros [err [=]].
  - exists [LogException "caught exception in db context, rolling back transaction" err;
            Rollback].
    cbn. rewrite <- !app_assoc. repeat split; try done. intros _. by exists err.
  - exists []. cbn. repeat split; try done. by intros [err' [=]].
Qed.

(** ** Streaming mapper, continued *)

Lemma elem_of_filter_out (k p : nat) (l : list nat) :
  p ∈ List.filter (fun q => negb (Nat.eqb q k)) l <-> p ∈ l /\ p <> k.
Proof.
  rewrite list_elem_of_In, filter_In, <- list_elem_of_In.
  destruct (Nat.eqb_spec p k) as [->|Hne]; cbn [negb].
  - split; [intros [_ [=]] | intros [_ Hne]; congruence].
  - split; [intros [Hq _]; by split | intros [Hq _]; by split].
Qed.

Section MapperPasses.

Variable f : obj -> outcome pyval.

(** One step of the loop on a row the transform is interrupted on. *)
Lemma loop_row_interrupted tee entry err rest s :
  f entry = Raises (Interrupt err) ->
  DBMapper.loop f tee (DBMapper.Row entry :: rest) s
  = (Raises (Interrupt err),
     {| trace := trace s; pending := pending s ++ [entry]; flushed := flushed s |}).
Proof.
  intros H. cbn [DBMapper.loop]. unfold bind, attach, DBMapper._error_handler.
  by rewrite H.
Qed.

(** The loop over rows on which the transform returns or raises an error:
    it reaches the rest of the query, having yielded one value per row and
    kept in the working set the rows the transform returned on. *)
Lemma loop_rows_handled tee rows s :
  forallb (handled f) rows = true ->
  exists s',
    (forall rest,
        DBMapper.loop f tee ((DBMapper.Row <$> rows) ++ rest) s
        = DBMapper.loop f tee rest s')
    /\ DBMapper.yielded (trace s')
       = DBMapper.yielded (trace s) ++ (if tee then DBMapper.value_of f <$> rows else [])
    /\ DBMapper.commits (trace s') = DBMapper.commits (trace s)
    /\ existsb is_rollback (trace s') = existsb is_rollback (trace s)
    /\ flushed s' = flushed s
    /\ forall p, p ∈ pending s'
                 <-> (p ∈ pending s \/ p ∈ rows)
                     /\ ~ (p ∈ rows /\ DBMapper.succeeds f p = false).
Proof.
  revert s; induction rows as [|r rows IH]; intros s H.
  - exists s.
    split; [reflexivity|]. split; [by destruct tee; rewrite app_nil_r|].
    split; [reflexivity|]. split; [reflexivity|]. split; [reflexivity|].
    intros p. split.
    + intros Hp. split; [by left|]. intros [Hin _]. by apply elem_of_nil in Hin.
    + intros [[Hp|Hp] _]; [done | by apply elem_of_nil in Hp].
  - cbn [forallb] in H. apply andb_true_iff in H as [Hr Hrows].
    unfold handled in Hr.
    destruct (f r) as [v|[err|err]] eqn:Hf; [| |discriminate].
    + destruct (IH {| trace := trace s ++ (if tee then [Yield v] else []);
                      pending := pending s ++ [r];
                      flushed := flushed s |} Hrows)
        as (s' & Hloop & Hy & Hc & Hrb & Hfl & Hp).
      cbn [trace pending flushed] in *.
      exists s'. split; [|split; [|split; [|split; [|split]]]].
      * intros rest. cbn [fmap list_fmap app].
        rewrite (loop_row_returns f _ _ _ _ _ Hf). apply Hloop.
      * assert (DBMapper.value_of f r = v) as Hv
          by (unfold DBMapper.value_of; by rewrite Hf).
        rewrite Hy, yielded_app. cbn [fmap list_fmap]. rewrite Hv.
        destruct tee; cbn; rewrite <- ?app_assoc, ?app_nil_r; reflexivity.
      * rewrite Hc, commits_app. destruct tee; cbn; lia.
      * rewrite Hrb, existsb_app. destruct tee; cbn; by rewrite ?orb_false_r.
      * exact Hfl.
      * intros p. rewrite Hp, elem_of_app, list_elem_of_singleton, elem_of_cons.
        split.
        -- intros [Hin Hno]. split; [tauto|].
           intros [[->|Hin'] Hfail]; [|tauto].
           unfold DBMapper.succeeds in Hfail. by rewrite Hf in Hfail.
        -- intros [Hin Hno]. split; [tauto|]. intros [Hin' Hfail]. tauto.
    + destruct (IH {| trace := trace s
                        ++ [LogError "caught error during mapping, skipping" err;
                            Expunge r]
                        ++ (if tee then [Yield PyNone] else []);
                      pending := List.filter (fun p => negb (Nat.eqb p r))
                                   (pending s ++ [r]);
                      flushed := flushed s |} Hrows)
        as (s' & Hloop & Hy & Hc & Hrb & Hfl & Hp).
      cbn [trace pending flushed] in *.
      exists s'. split; [|split; [|split; [|split; [|split]]]].
      * intros rest. cbn [fmap list_fmap app].
        rewrite (loop_row_fails f _ _ _ _ _ Hf). apply Hloop.
      * assert (DBMapper.value_of f r = PyNone) as Hv
          by (unfold DBMapper.value_of; by rewrite Hf).
        rewrite Hy, !yielded_app. cbn [fmap list_fmap]. rewrite Hv.
        destruct tee; cbn; rewrite <- ?app_assoc, ?app_nil_r; reflexivity.
      * rewrite Hc, !commits_app. destruct tee; cbn; lia.
      * rewrite Hrb, !existsb_app. destruct tee; cbn; by rewrite ?orb_false_r.
      * exact Hfl.
      * intros p. rewrite Hp.
        unfold obj in *.
        rewrite elem_of_filter_out, elem_of_app, list_elem_of_singleton, elem_of_cons.
        assert (DBMapper.succeeds f r = false) as Hfr
          by (unfold DBMapper.succeeds; by rewrite Hf).
        split.
        -- intros [Hin Hno]. split; [tauto|].
           intros [[->|Hin'] Hfail]; tauto.
        -- intros [Hin Hno].
           destruct (Nat.eq_dec p r) as [->|Hne]; [exfalso; apply Hno; tauto|].
           split; [tauto|]. intros [Hin' Hfail]. tauto.
Qed.

End MapperPasses.

(** X7.  A pass whose cursor delivers all its rows and whose transform is never
    interrupted ends normally however many rows fail: the consumer gets one
    value per row, in row order ([None] for a failed row), or nothing
    without [tee]; the pass commits exactly once, as its last call but the
    close, and never rolls back; the commit sends exactly the objects of
    the working set and the rows of the pass that are not failed rows. *)
Theorem map_commits_once_whatever_fails
    (f : obj -> outcome pyval) (tee : bool) (rows : list obj) (s : Session) :
  forallb (handled f) rows = true ->
  exists s' t written,
    DBMapper.map f tee (DBMapper.Row <$> rows) s = (Returns (Some tt), s')
    /\ trace s' = t ++ [Commit; Close]
    /\ DBMapper.yielded (trace s')
       = DBMapper.yielded (trace s) ++ (if tee then DBMapper.value_of f <$> rows else [])
    /\ DBMapper.commits (trace s') = S (DBMapper.commits (trace s))
    /\ existsb is_rollback (trace s') = existsb is_rollback (trace s)
    /\ pending s' = []
    /\ flushed s' = flushed s ++ written
    /\ forall p, p ∈ written
                 <-> (p ∈ pending s \/ p ∈ rows)
                     /\ ~ (p ∈ rows /\ DBMapper.succeeds f p = false).
Proof.
  intros H.
  destruct (loop_rows_handled f tee rows s H)
    as (s1 & Hloop & Hy & Hc & Hrb & Hfl & Hp).
  specialize (Hloop []). rewrite app_nil_r in Hloop. cbn [DBMapper.loop] in Hloop.
  exists {| trace := (trace s1 ++ [Commit]) ++ [Close];
            pending := [];
            flushed := flushed s1 ++ pending s1 |}, (trace s1), (pending s1).
  split; [|split; [|split; [|split; [|split; [|split; [|split]]]]]].
  - unfold DBMapper.map, DB.ctx, bind at 1. rewrite Hloop. reflexivity.
  - cbn [trace]. by rewrite <- app_assoc.
  - cbn [trace]. rewrite !yielded_app, Hy. cbn. by rewrite !app_nil_r.
  - cbn [trace]. rewrite !commits_app, Hc. cbn. lia.
  - cbn [trace]. rewrite !existsb_app, Hrb. cbn. by rewrite !orb_false_r.
  - reflexivity.
  - cbn [flushed]. by rewrite Hfl.
  - exact Hp.
Qed.

Lemma map_commits_once_whatever_fails_witness :
  exists s' t written,
    DBMapper.map fails_on_1 false
      (DBMapper.Row <$> [1%nat; 0%nat; 1%nat; 2%nat]) new_session
    = (Returns (Some tt), s')
    /\ trace s' = t ++ [Commit; Close]
    /\ DBMapper.yielded (trace s') = []
    /\ DBMapper.commits (trace s') = 1%nat
    /\ flushed s' = written
    /\ (1%nat ∉ written).
Proof.
  destruct (map_commits_once_whatever_fails fails_on_1 false
              [1%nat; 0%nat; 1%nat; 2%nat] new_session eq_refl)
    as (s' & t & written & Hmap & Ht & Hy & Hc & _ & _ & Hfl & Hw).
  exists s', t, written.
  split; [exact Hmap|]. split; [exact Ht|]. split; [exact Hy|]. split; [exact Hc|].
  split; [exact Hfl|].
  intros Hin. apply Hw in Hin as [_ Hno]. apply Hno.
  split; [by left | reflexivity].
Defined.

(** X8.  A pass is cut short where the cursor breaks: the consumer has received
    the values of the rows before the break and no other, nothing was sent
    to the store, and the rows behind the break play no part in the pass. *)
Theorem map_stops_at_broken_cursor
    (f : obj -> outcome pyval) (tee : bool) (pre : list obj) (r : raised)
    (rest : list DBMapper.fetch) (s : Session) :
  forallb (handled f) pre = true ->
  DBMapper.map f tee ((DBMapper.Row <$> pre) ++ DBMapper.Broken r :: rest) s
  = DBMapper.map f tee ((DBMapper.Row <$> pre) ++ [DBMapper.Broken r]) s
  /\ DBMapper.yielded
       (trace (snd (DBMapper.map f tee
                      ((DBMapper.Row <$> pre) ++ DBMapper.Broken r :: rest) s)))
     = DBMapper.yielded (trace s) ++ (if tee then DBMapper.value_of f <$> pre else [])
  /\ flushed (snd (DBMapper.map f tee
                     ((DBMapper.Row <$> pre) ++ DBMapper.Broken r :: rest) s))
     = flushed s.
Proof.
  intros H.
  destruct (loop_rows_handled f tee pre s H) as (s1 & Hloop & Hy & _ & _ & Hfl & _).
  assert (forall rest',
             (DBMapper.loop f tee ((DBMapper.Row <$> pre) ++ DBMapper.Broken r :: rest');;;
              commit) s = (Raises r, s1)) as Hbody.
  { intros rest'. unfold bind. by rewrite Hloop. }
  unfold DBMapper.map, DB.ctx. rewrite (Hbody rest), (Hbody []).
  split; [reflexivity|].
  destruct r as [err|err]; cbn; rewrite ?yielded_app, Hy, Hfl; cbn;
    rewrite ?app_nil_r; by split.
Qed.

Lemma map_stops_at_broken_cursor_witness :
  DBMapper.map fails_on_1 true
    [DBMapper.Row 0%nat; DBMapper.Row 1%nat;
     DBMapper.Broken (Error "OperationalError"); DBMapper.Row 2%nat]
    new_session
  = DBMapper.map fails_on_1 true
      [DBMapper.Row 0%nat; DBMapper.Row 1%nat; DBMapper.Broken (Error "OperationalError")]
      new_session.
Proof.
  destruct (map_stops_at_broken_cursor fails_on_1 true [0%nat; 1%nat]
              (Error "OperationalError") [DBMapper.Row 2%nat] new_session eq_refl)
    as [H _].
  exact H.
Defined.

(** X9.  Row isolation covers errors only.  When the transform raises on row
    [k] something that is not an [Exception], the pass ends there and the
    caller gets what was raised: the consumer has received the values of
    the rows before [k], the rows after [k] are never transformed, and the
    session is closed with neither a commit nor a rollback; nothing was
    sent to the store. *)
Theorem map_does_not_isolate_interrupts
    (f : obj -> outcome pyval) (tee : bool) (pre post : list obj) (k : obj)
    (err : string) (s : Session) :
  forallb (handled f) pre = true ->
  f k = Raises (Interrupt err) ->
  exists s' t,
    DBMapper.map f tee (DBMapper.Row <$> (pre ++ k :: post)) s
    = (Raises (Interrupt err), s')
    /\ DBMapper.map f tee (DBMapper.Row <$> (pre ++ k :: post)) s
       = DBMapper.map f tee (DBMapper.Row <$> (pre ++ [k])) s
    /\ trace s' = t ++ [Close]
    /\ DBMapper.yielded (trace s')
       = DBMapper.yielded (trace s) ++ (if tee then DBMapper.value_of f <$> pre else [])
    /\ DBMapper.commits (trace s') = DBMapper.commits (trace s)
    /\ existsb is_rollback (trace s') = existsb is_rollback (trace s)
    /\ pending s' = []
    /\ flushed s' = flushed s.
Proof.
  intros H Hk.
  destruct (loop_rows_handled f tee pre s H) as (s1 & Hloop & Hy & Hc & Hrb & Hfl & _).
  assert (forall post',
             (DBMapper.loop f tee (DBMapper.Row <$> (pre ++ k :: post'));;; commit) s
             = (Raises (Interrupt err),
                {| trace := trace s1; pending := pending s1 ++ [k];
                   flushed := flushed s1 |})) as Hbody.
  { intros post'. unfold bind. rewrite fmap_app, Hloop. cbn [fmap list_fmap].
    by rewrite (loop_row_interrupted f _ _ _ _ _ Hk). }
  exists {| trace := trace s1 ++ [Close]; pending := []; flushed := flushed s1 |},
    (trace s1).
  unfold DBMapper.map, DB.ctx. rewrite (Hbody post), (Hbody []).
  split; [reflexivity|]. split; [reflexivity|]. split; [reflexivity|].
  cbn [trace pending flushed].
  rewrite yielded_app, commits_app, existsb_app, Hy, Hc, Hrb, Hfl. cbn.
  rewrite app_nil_r, orb_false_r. repeat split; lia.
Qed.

Lemma map_does_not_isolate_interrupts_witness :
  fst (DBMapper.map interrupted_on_1 true
         (DBMapper.Row <$> [0%nat; 1%nat; 2%nat]) new_session)
  = Raises (Interrupt "KeyboardInterrupt").
Proof.
  destruct (map_does_not_isolate_interrupts interrupted_on_1 true [0%nat] [2%nat] 1%nat
              "KeyboardInterrupt" new_session eq_refl eq_refl)
    as (s' & t & Hmap & _).
  exact (f_equal fst Hmap).
Defined.

(** *** [tee] and [each] *)

Lemma calls_app t1 t2 : calls (t1 ++ t2) = calls t1 ++ calls t2.
Proof. unfold calls. apply List.filter_app. Qed.

Lemma loop_tee_same_calls (f : obj -> outcome pyval) (query : list DBMapper.fetch)
    (s1 s2 : Session) :
  same_calls s1 s2 ->
  fst (DBMapper.loop f true query s1) = fst (DBMapper.loop f false query s2)
  /\ same_calls (snd (DBMapper.loop f true query s1))
                (snd (DBMapper.loop f false query s2))
  /\ DBMapper.yielded (trace (snd (DBMapper.loop f false query s2)))
     = DBMapper.yielded (trace s2).
Proof.
  revert s1 s2; induction query as [|[entry|r] query IH];
    intros s1 s2 (Hc & Hp & Hf); [done| |done].
  destruct (f entry) as [v|[err|err]] eqn:Hfe.
  - rewrite !(loop_row_returns f _ _ _ _ _ Hfe).
    match goal with
    | |- context [DBMapper.loop f false query ?s] =>
        destruct (IH {| trace := trace s1 ++ [Yield v];
                        pending := pending s1 ++ [entry];
                        flushed := flushed s1 |} s) as (H1 & H2 & H3)
    end.
    { split; [|split]; cbn [trace pending flushed].
      - rewrite !calls_app, Hc. reflexivity.
      - by rewrite Hp.
      - exact Hf. }
    split; [exact H1|]. split; [exact H2|].
    rewrite H3. cbn [trace]. by rewrite app_nil_r.
  - rewrite !(loop_row_fails f _ _ _ _ _ Hfe).
    match goal with
    | |- context [DBMapper.loop f false query ?s] =>
        destruct (IH {| trace := trace s1
                          ++ [LogError "caught error during mapping, skipping" err;
                              Expunge entry] ++ [Yield PyNone];
                        pending := List.filter (fun p => negb (Nat.eqb p entry))
                                     (pending s1 ++ [entry]);
                        flushed := flushed s1 |} s) as (H1 & H2 & H3)
    end.
    { split; [|split]; cbn [trace pending flushed].
      - rewrite !calls_app, Hc. reflexivity.
      - by rewrite Hp.
      - exact Hf. }
    split; [exact H1|]. split; [exact H2|].
    rewrite H3. cbn [trace]. rewrite !yielded_app. cbn. by rewrite !app_nil_r.
  - rewrite !(loop_row_interrupted f _ _ _ _ _ Hfe). cbn [fst snd].
    split; [reflexivity|]. split; [|reflexivity].
    split; [|split]; cbn [trace pending flushed]; [exact Hc | by rewrite Hp | exact Hf].
Qed.

(** X10.  [tee] only decides what the consumer receives.  [each], which is [map]
    without [tee], ends the way [map] with [tee] ends (normally, or with the
    same raise), makes the same calls on the session and on [logging] in
    the same order, leaves the same objects staged and sent, and hands out
    no value at all. *)
Theorem each_makes_the_calls_of_map
    (f : obj -> outcome pyval) (query : list DBMapper.fetch) (s : Session) :
  fst (DBMapper.each f query s)
  = match fst (DBMapper.map f true query s) with
    | Returns _ => Returns tt
    | Raises r => Raises r
    end
  /\ calls (trace (snd (DBMapper.each f query s)))
     = calls (trace (snd (DBMapper.map f true query s)))
  /\ pending (snd (DBMapper.each f query s)) = pending (snd (DBMapper.map f true query s))
  /\ flushed (snd (DBMapper.each f query s)) = flushed (snd (DBMapper.map f true query s))
  /\ DBMapper.yielded (trace (snd (DBMapper.each f query s)))
     = DBMapper.yielded (trace s).
Proof.
  assert (same_calls s s) as Hss by done.
  destruct (loop_tee_same_calls f query s s Hss) as (H1 & (Hc & Hp & Hf) & Hy).
  unfold DBMapper.each, DBMapper.map, DB.ctx, bind.
  destruct (DBMapper.loop f true query s) as [[[]|[e1|e1]] s1];
    destruct (DBMapper.loop f false query s) as [[[]|[e2|e2]] s2];
    cbn [fst snd] in *; try discriminate; try injection H1 as <-;
    cbn; rewrite ?calls_app, ?yielded_app, ?Hc, ?Hp, ?Hf, ?Hy; cbn;
    rewrite ?app_nil_r; done.
Qed.

(** ** Connection manager, continued *)

Lemma assign_all_consistent env created :
  exists attrs e,
    DB.assign_all env created = ((Some attrs : DB.state), S created)
    /\ db_consistent attrs
    /\ DB.engine attrs = Some e.
Proof.
  eexists _, _. split; [reflexivity|]. split; [right; by eexists | reflexivity].
Qed.

(** A run from a state in which the attributes are assigned never raises;
    it keeps them in step and builds one engine per forced call, plus one
    when it starts without an engine on an unforced call. *)
Lemma run_init_db_assigned env flags attrs n :
  db_consistent attrs ->
  exists attrs',
    run_init_db env flags ((Some attrs : DB.state), n)
    = (Returns tt,
       ((Some attrs' : DB.state),
        (n + length (List.filter id flags)
         + match DB.engine attrs, flags with
           | None, false :: _ => 1
           | _, _ => 0
           end)%nat))
    /\ db_consistent attrs'
    /\ (is_Some (DB.engine attrs) \/ flags <> [] -> is_Some (DB.engine attrs')).
Proof.
  revert attrs n; induction flags as [|force flags IH]; intros attrs n Hcons.
  - exists attrs. split; [|split; [exact Hcons|]].
    + cbn [run_init_db List.filter length]. destruct (DB.engine attrs); first [reflexivity | do 2 f_equal; lia].
    + intros [H|H]; [exact H | done].
  - destruct (assign_all_consistent env n) as (new & e & Hnew & Hnewc & Hnewe).
    assert (force = true \/ DB.engine attrs = None
            \/ (force = false /\ exists e0, DB.engine attrs = Some e0)) as Hcase.
    { destruct force; [by left|]. destruct (DB.engine attrs) as [e0|]; [|tauto].
      right. right. split; [reflexivity | by exists e0]. }
    destruct Hcase as [-> | [Hnone | [-> [e0 He0]]]].
    + cbn [run_init_db]. rewrite init_db_forced, Hnew.
      destruct (IH new (S n) Hnewc) as (attrs' & Hrun & Hc & Hs).
      exists attrs'. rewrite Hrun, Hnewe. split; [|split; [exact Hc|]].
      * cbn [List.filter id length]. destruct (DB.engine attrs); first [reflexivity | do 2 f_equal; lia].
      * intros _. apply Hs. left. rewrite Hnewe. by eexists.
    + cbn [run_init_db].
      rewrite (init_db_creates env force attrs n (or_intror Hnone)), Hnew.
      destruct (IH new (S n) Hnewc) as (attrs' & Hrun & Hc & Hs).
      exists attrs'. rewrite Hrun, Hnewe, Hnone. split; [|split; [exact Hc|]].
      * destruct force; cbn [List.filter id length]; first [reflexivity | do 2 f_equal; lia].
      * intros _. apply Hs. left. rewrite Hnewe. by eexists.
    + cbn [run_init_db]. rewrite (init_db_keeps env attrs n e0 He0).
      destruct (IH attrs n Hcons) as (attrs' & Hrun & Hc & Hs).
      exists attrs'. rewrite Hrun, He0. split; [|split; [exact Hc|]].
      * cbn [List.filter id length]. first [reflexivity | do 2 f_equal; lia].
      * intros _. apply Hs. left. rewrite He0. by eexists.
Qed.

(** X11.  However [init_db] is called, forced or not and any number of
    times, starting from the attributes of the class body (in the thread
    that ran it), no call raises and the engine and the two session
    factories stay in step: either none is set, or both factories are bound
    to the engine in place, the first transactional and the second
    autocommit.  After at least one call the engine is there, and the
    number of engines built so far grows by one per forced call, plus one
    when the first call was not forced. *)
Theorem init_db_keeps_factories_bound
    (env : DB.Environment) (flags : list bool) (created : nat) :
  exists attrs,
    run_init_db env flags (DB.initial, created)
    = (Returns tt,
       ((Some attrs : DB.state),
        (created + length (List.filter id flags)
         + match flags with false :: _ => 1 | _ => 0 end)%nat))
    /\ db_consistent attrs
    /\ (flags <> [] -> is_Some (DB.engine attrs)).
Proof.
  destruct (run_init_db_assigned env flags
              {| DB.engine := None; DB.Session := None; DB.AutoSession := None |}
              created (or_introl eq_refl)) as (attrs & Hrun & Hc & Hs).
  exists attrs. split; [exact Hrun|]. split; [exact Hc|].
  intros Hne. apply Hs. by right.
Qed.

Lemma init_db_keeps_factories_bound_witness :
  exists attrs,
    run_init_db local_env [false; true; false] (DB.initial, 0%nat)
    = (Returns tt, ((Some attrs : DB.state), 2%nat))
    /\ is_Some (DB.engine attrs).
Proof.
  destruct (init_db_keeps_factories_bound local_env [false; true; false] 0%nat)
    as (attrs & Hrun & _ & Hsome).
  exists attrs. split; [exact Hrun | apply Hsome; discriminate].
Defined.

(** X12.  The connection URL is put together without escaping: a colon moved
    from the user name into the password gives the same URL, so the two
    cannot be told apart from it. *)
Theorem engine_url_is_not_escaped
    (user part1 part2 db : string) (h p : option string) (created : nat) :
  DB.url (DB.make_engine
            {| DB.username := user +:+ ":" +:+ part1; DB.password := part2;
               DB.database := db; DB.host := h; DB.port := p |} created)
  = DB.url (DB.make_engine
              {| DB.username := user; DB.password := part1 +:+ ":" +:+ part2;
                 DB.database := db; DB.host := h; DB.port := p |} created).
Proof.
  unfold DB.make_engine. cbn [DB.url DB.username DB.password DB.host DB.port DB.database].
  by rewrite !append_assoc.
Qed.

(** ** Mappers and the connection state of their thread *)

(** X14.  Building a mapper runs [DB()], which reads the engine attribute
    of the calling thread.  In a thread where the attributes of [_db] were
    never assigned, [DBMapper(entry_class)] therefore raises
    [AttributeError], gives no mapper and builds no engine.  After
    [init_db(force=True)] in that thread, and in any state in which the
    attributes are assigned, it returns a mapper with an engine in place,
    and every mapper built after that leaves the connection state as it
    is, building no further engine. *)
Theorem mapper_init_needs_assigned_state
    (env : DB.Environment) (entry_class : string) (created : nat) :
  MapperObject.__init__ env entry_class (DB.unassigned, created)
  = (Raises (Error "AttributeError"), (DB.unassigned, created))
  /\ (exists self,
        MapperObject.__init__ env entry_class
          (snd (DB.init_db env true (DB.unassigned, created)))
        = (Returns self, snd (DB.init_db env true (DB.unassigned, created)))
        /\ snd (snd (DB.init_db env true (DB.unassigned, created))) = S created)
  /\ (forall attrs : DB.attributes,
        exists self attrs' e n,
          MapperObject.__init__ env entry_class ((Some attrs : DB.state), created)
          = (Returns self, ((Some attrs' : DB.state), n))
          /\ DB.engine attrs' = Some e
          /\ (created <= n <= S created)%nat
          /\ forall other,
              exists self',
                MapperObject.__init__ env other ((Some attrs' : DB.state), n)
                = (Returns self', ((Some attrs' : DB.state), n))).
Proof.
  split; [reflexivity|]. split; [by eexists|].
  intros attrs. unfold MapperObject.__init__, DB.__init__.
  destruct (DB.engine attrs) as [e|] eqn:He.
  - rewrite (init_db_keeps env attrs created e He).
    eexists _, attrs, e, created. split; [reflexivity|]. split; [exact He|].
    split; [lia|]. intros other. rewrite (init_db_keeps env attrs created e He).
    by eexists.
  - rewrite (init_db_creates env false attrs created (or_intror He)).
    destruct (assign_all_consistent env created) as (new & e & Hnew & _ & Hnewe).
    rewrite Hnew. eexists _, new, e, (S created). split; [reflexivity|].
    split; [exact Hnewe|]. split; [lia|].
    intros other. rewrite (init_db_keeps env new (S created) e Hnewe). by eexists.
Qed.

(** ** Upserts inside a scoped session block *)

(** X15.  An upsert run in a scoped session block with nothing after it is not
    committed: whatever the store answers, the block adds no commit and
    leaves nothing staged.  When the statement goes through, the session is
    just closed after it (and after the flush, if one was asked for); when
    it fails with an error, the error is logged, the transaction rolled
    back, the session closed, and the caller sees the block end normally. *)
Theorem upsert_in_ctx_is_not_committed
    (store : Insert -> gmap string pyval -> outcome ResultProxy)
    (entry : Model) (column : string)
    (update_fields : option (gset string)) (exclude_fields : gset string)
    (do_flush : bool) (s : Session) :
  let stmt := update_statement entry column update_fields exclude_fields in
  let params := get_model_dict entry in
  let block := insert_or_update store entry column update_fields exclude_fields do_flush in
  DBMapper.commits (trace (snd (DB.ctx block s))) = DBMapper.commits (trace s)
  /\ pending (snd (DB.ctx block s)) = []
  /\ (forall res,
        store stmt params = Returns res ->
        fst (DB.ctx block s) = Returns (Some tt)
        /\ trace (snd (DB.ctx block s))
           = trace s ++ Execute stmt params :: (if do_flush then [Flush] else []) ++ [Close])
  /\ (forall err,
        store stmt params = Raises (Error err) ->
        DB.ctx block s
        = (Returns None,
           {| trace := trace s
                       ++ [Execute stmt params;
                           LogException
                             "caught exception in db context, rolling back transaction" err;
                           Rollback; Close];
              pending := [];
              flushed := flushed s |})).
Proof.
  intros stmt params block.
  assert (block s
          = match store stmt params with
            | Returns _ =>
                if do_flush
                then (Returns tt,
                      {| trace := (trace s ++ [Execute stmt params]) ++ [Flush];
                         pending := [];
                         flushed := flushed s ++ pending s |})
                else (Returns tt, emit (Execute stmt params) s)
            | Raises r => (Raises r, emit (Execute stmt params) s)
            end) as Hblock.
  { unfold block, insert_or_update, bind. rewrite execute_run. fold stmt params.
    destruct (store stmt params); [|reflexivity]. by destruct do_flush. }
  unfold DB.ctx. rewrite Hblock.
  destruct (store stmt params) as [res|[err|err]]; [destruct do_flush| |];
    unfold bind, tell, rollback, close, ret, raise, emit;
    cbn [fst snd trace pending flushed];
    rewrite <- ?app_assoc, ?commits_app;
    (split; [cbn; lia|]); (split; [reflexivity|]).
  - split; [intros res' _; by split | intros err' [=]].
  - split; [intros res' _; by split | intros err' [=]].
  - split; [intros res' [=] | intros err' [= <-]; reflexivity].
  - split; [intros res' [=] | intros err' [=]].
Qed.
